(** * The centroid manipulator of the SRT controller

    A shallow embedding of [src/ctrl/srt/srt_CentroidMode.cpp]
    ([ctrl::srt::CentroidMode]) and the properties of its cursor state
    machine, its undo-coalescing protocol and its event targeting.

    The file is organised as follows:
    - the collaborators the source only uses through their interface
      (Qt's vectors and matrices, the camera, the timeline, the command
      stack) are type class parameters or small records;
    - [pushEventTarget], [moveCentroid] and [updateCursor] follow the
      source statement by statement, with the mutable objects they reach
      ([this], the key owner, the project) threaded as explicit state;
    - a concrete integer-grid instance of the collaborators lets every
      definition run on closed inputs, and an instance on the kernel's
      IEEE floats runs the clamp on the values, NaN included, that
      [float] really has. *)

From Stdlib Require Import ZArith Bool Lia PrimFloat.
From stdpp Require Import base option list gmap sorting strings.

Set Default Proof Using "Type".
Local Set Warnings "-register-all".
Local Open Scope Z_scope.

(** ** External collaborators *)

(** C++ [float] with the operations the source applies to it.  The type
    is abstract: the source only adds, subtracts and compares. *)
Class FloatOps := {
  float : Type;
  float_lit : Z -> float;            (* the literal [n.0f] *)
  fadd : float -> float -> float;
  fsub : float -> float -> float;
  fle : float -> float -> bool;      (* [a <= b] *)
  flt : float -> float -> bool;      (* [a < b] *)
}.

Section Vectors.
Context `{FloatOps}.

Record QVector2D := mkVec2 { vx : float; vy : float }.
Record QVector3D := mkVec3 { v3x : float; v3y : float; v3z : float }.

(* [QVector3D()] is the null vector. *)
Definition QVector3D_null : QVector3D :=
  mkVec3 (float_lit 0) (float_lit 0) (float_lit 0).
(* [QVector3D(const QVector2D&)] sets z to zero. *)
Definition QVector3D_of_2D (v : QVector2D) : QVector3D :=
  mkVec3 (vx v) (vy v) (float_lit 0).
(* [QVector3D::toVector2D()] drops z. *)
Definition toVector2D (v : QVector3D) : QVector2D :=
  mkVec2 (v3x v) (v3y v).

Definition vec_add (a b : QVector2D) : QVector2D :=
  mkVec2 (fadd (vx a) (vx b)) (fadd (vy a) (vy b)).
Definition vec_sub (a b : QVector2D) : QVector2D :=
  mkVec2 (fsub (vx a) (vx b)) (fsub (vy a) (vy b)).
End Vectors.

(** Qt's 4x4 matrices, the vector length, the camera and the key payload
    of a timeline: library code, used through its interface only. *)
Class Collaborators `{FloatOps} := {
  QMatrix4x4 : Type;
  mat_mul : QMatrix4x4 -> QMatrix4x4 -> QMatrix4x4;      (* [a * b] *)
  (* [m.inverted(&ok)]: the inverse and whether the matrix had one *)
  inverted : QMatrix4x4 -> QMatrix4x4 * bool;
  mat_map : QMatrix4x4 -> QVector3D -> QVector3D;        (* [m * v] *)
  vec_length : QVector2D -> float;                       (* [v.length()] *)
  CameraInfo : Type;
  toScreenLength : CameraInfo -> float -> float;
  TimeKey : Type;
  (* [core::Constant::transMin()] and [transMax()] *)
  transMin : float;
  transMax : float;
}.

Section Model.
Context `{Collaborators}.

(** ** Anonymous-namespace constants *)
Definition kTransRange : float := float_lit 3.
Definition kCrossRadius : float := float_lit 30.
Definition kCrossSub : float := float_lit 8.

(** ** Scene graph and timeline *)

(* The two channel kinds the source names. *)
Inductive TimeKeyType := TimeKeyType_SRT | TimeKeyType_Image.

(* [TimeLine::map(type)] is a [QMap<int, TimeKey*>] per channel. *)
Record TimeLine := mkTimeLine {
  tl_map : TimeKeyType -> gmap Z TimeKey;
}.

(* [timeLine()] returns a pointer that may be null. *)
Inductive ObjectNode := mkObjectNode {
  canHoldChild : bool;
  timeLine : option TimeLine;
  children : list ObjectNode;
}.

(* A [QMap] iterates in ascending key order; [itr.key()] is the frame. *)
Definition map_keys (m : gmap Z TimeKey) : list Z :=
  merge_sort Z.le (map_to_list m).*1.

(** ** Timeline events *)

Inductive TimeLineEventType := Type_ChangeKeyValue.

Record Target := mkTarget {
  tgt_node : ObjectNode;
  tgt_type : TimeKeyType;
  tgt_frame : Z;
}.

Record TimeLineEvent := mkEvent {
  ev_type : option TimeLineEventType;
  ev_targets : list Target;
}.

(* [TimeLineEvent event;] *)
Definition TimeLineEvent_new : TimeLineEvent := mkEvent None [].

Definition setType (ty : TimeLineEventType) (e : TimeLineEvent) : TimeLineEvent :=
  mkEvent (Some ty) (ev_targets e).

(* [aEvent.pushTarget(node, type, frame)]: one more target. *)
Definition pushTarget (node : ObjectNode) (ty : TimeKeyType) (frame : Z)
    (e : TimeLineEvent) : TimeLineEvent :=
  mkEvent (ev_type e) (ev_targets e ++ [mkTarget node ty frame]).

(* [for (itr = map.begin(); itr != map.end(); ++itr)
      aEvent.pushTarget(node, ty, itr.key());] *)
Definition pushKeys (node : ObjectNode) (ty : TimeKeyType)
    (m : gmap Z TimeKey) (e : TimeLineEvent) : TimeLineEvent :=
  foldl (fun acc k => pushTarget node ty k acc) e (map_keys m).

(* [for (auto child : aTarget.children())]: the pointer assertion on
   the child's timeline aborts the enumeration. *)
Fixpoint pushChildren (cs : list ObjectNode) (e : TimeLineEvent)
    : option TimeLineEvent :=
  match cs with
  | [] => Some e
  | child :: cs' =>
      match timeLine child with
      | None => None
      | Some ctl =>
          pushChildren cs'
            (pushKeys child TimeKeyType_SRT (tl_map ctl TimeKeyType_SRT) e)
      end
  end.

(** [CentroidMode::pushEventTarget]; [None] is a failed
    [XC_PTR_ASSERT]. *)
Definition pushEventTarget (aTarget : ObjectNode) (aEvent : TimeLineEvent)
    : option TimeLineEvent :=
  match timeLine aTarget with
  | None => None
  | Some tl =>
      let e1 := pushKeys aTarget TimeKeyType_SRT (tl_map tl TimeKeyType_SRT) aEvent in
      if canHoldChild aTarget then
        pushChildren (children aTarget) e1
      else
        Some (pushKeys aTarget TimeKeyType_SRT (tl_map tl TimeKeyType_Image) e1)
  end.

(** ** Commands and the project *)

(** Modelled from the spec: the class [CentroidMover] is declared
    outside this file.  The spec has the command capture
    [(Node, baseCenterLocal, newLocalCenter)], and has [modifyValue]
    replace its stored target value in place. *)
Record CentroidMover := mkCentroidMover {
  cm_target : ObjectNode;
  cm_prev : QVector2D;
  cm_next : QVector2D;
}.

Definition modifyValue (aNewValue : QVector2D) (c : CentroidMover)
    : CentroidMover :=
  mkCentroidMover (cm_target c) (cm_prev c) aNewValue.

(* Listeners a [cmnd::ScopedMacro] grabs. *)
Inductive Listener :=
| TimeLineNotifier (e : TimeLineEvent)
| AttributeNotifier (n : ObjectNode).

Record Macro := mkMacro {
  macro_name : string;
  macro_listeners : list Listener;
}.

(* Calls on the project's notification bus. *)
Inductive Notification :=
| onTimeLineModified (e : TimeLineEvent) (undo : bool)
| onNodeAttributeModified (n : ObjectNode) (undo : bool).

(* The project as this file reaches it.  [pushed] holds the command
   objects handed to [stack.push], oldest first; a pointer to one of
   them is its index. *)
Record Project := mkProject {
  pushed : list CentroidMover;
  macros : list Macro;
  notified : list Notification;
}.

Record KeyOwner := mkKeyOwner {
  mtx : QMatrix4x4;
  locSRMtx : QMatrix4x4;
  locMtx : QMatrix4x4;
}.

(* The value members of [CentroidMode]. *)
Record CentroidMode := mkCentroidMode {
  mFocusing : bool;
  mMoving : bool;
  mBaseVec : QVector2D;
  mBaseCenter : QVector2D;
  mCommandRef : option nat;
}.

(* The manipulator together with the objects its reference members
   [mProject], [mTarget] and [mKeyOwner] designate. *)
Record World := mkWorld {
  this : CentroidMode;
  mProject : Project;
  mTarget : ObjectNode;
  mKeyOwner : KeyOwner;
}.

(* What the collaborators answer during one call:
   [commandStack().isModifiable(ref)] and the matrices
   [KeyOwner::updatePosture] leaves behind. *)
Record Host := mkHost {
  isModifiable : nat -> bool;
  updatePosture : KeyOwner -> KeyOwner;
}.

Record AbstractCursor := mkCursor {
  worldPos : QVector2D;
  emitsLeftPressedEvent : bool;
  emitsLeftDraggedEvent : bool;
  emitsLeftReleasedEvent : bool;
}.

(** ** The move protocol *)

(** Modelled from the spec: [xc_clamp] comes from a header outside
    this file; the spec has it clamp a value into [[min, max]]. *)
Definition xc_clamp (v lo hi : float) : float :=
  if flt v lo then lo else if flt hi v then hi else v.

Definition clampCenter (aNewCenter : QVector2D) : QVector2D :=
  mkVec2 (xc_clamp (vx aNewCenter) transMin transMax)
         (xc_clamp (vy aNewCenter) transMin transMax).

(* [mCommandRef && mProject.commandStack().isModifiable(mCommandRef)] *)
Definition refModifiable (host : Host) (w : World) : bool :=
  match mCommandRef (this w) with
  | Some r => isModifiable host r
  | None => false
  end.

Definition set_project (p : Project) (w : World) : World :=
  mkWorld (this w) p (mTarget w) (mKeyOwner w).
Definition set_this (c : CentroidMode) (w : World) : World :=
  mkWorld c (mProject w) (mTarget w) (mKeyOwner w).
Definition set_keyOwner (k : KeyOwner) (w : World) : World :=
  mkWorld (this w) (mProject w) (mTarget w) k.
Definition set_mCommandRef (r : option nat) (c : CentroidMode) : CentroidMode :=
  mkCentroidMode (mFocusing c) (mMoving c) (mBaseVec c) (mBaseCenter c) r.
Definition set_mFocusing (b : bool) (c : CentroidMode) : CentroidMode :=
  mkCentroidMode b (mMoving c) (mBaseVec c) (mBaseCenter c) (mCommandRef c).

(* The branch that modifies the retained command. *)
Definition modifyCommand (r : nat) (newCenter : QVector2D) (w : World)
    : option World :=
  let p := mProject w in
  (* modify command *)
  let cmds := alter (modifyValue newCenter) r (pushed p) in
  (* singleshot notify *)
  let event := setType Type_ChangeKeyValue TimeLineEvent_new in
  match pushEventTarget (mTarget w) event with
  | None => None
  | Some event' =>
      Some (set_project
              (mkProject cmds (macros p)
                 (notified p ++ [onTimeLineModified event' false;
                                 onNodeAttributeModified (mTarget w) false]))
              w)
  end.

(* The branch that creates and pushes a command. *)
Definition createCommand (newCenter : QVector2D) (w : World)
    : option World :=
  let p := mProject w in
  (* set notifier *)
  let tln := setType Type_ChangeKeyValue TimeLineEvent_new in
  match pushEventTarget (mTarget w) tln with
  | None => None
  | Some tln' =>
      let macro :=
        mkMacro "move centroid"
                [TimeLineNotifier tln'; AttributeNotifier (mTarget w)] in
      (* create command *)
      let cmd := mkCentroidMover (mTarget w) (mBaseCenter (this w)) newCenter in
      let ref := length (pushed p) in
      (* push command *)
      Some (set_this (set_mCommandRef (Some ref) (this w))
              (set_project
                 (mkProject (pushed p ++ [cmd]) (macros p ++ [macro]) (notified p))
                 w))
  end.

(** [CentroidMode::moveCentroid]; [None] is a failed [XC_PTR_ASSERT]. *)
Definition moveCentroid (host : Host) (aNewCenter : QVector2D) (w : World)
    : option World :=
  match timeLine (mTarget w) with
  | None => None
  | Some _ =>
      let newCenter := clampCenter aNewCenter in
      match mCommandRef (this w) with
      | Some r =>
          if isModifiable host r
          then modifyCommand r newCenter w
          else createCommand newCenter w
      | None => createCommand newCenter w
      end
  end.

(** ** The cursor state machine *)

(** [CentroidMode::getWorldCentroidPos] *)
Definition getWorldCentroidPos (w : World) : QVector2D :=
  toVector2D
    (mat_map (mat_mul (mtx (mKeyOwner w)) (locMtx (mKeyOwner w))) QVector3D_null).

Definition worldMtx (w : World) : QMatrix4x4 :=
  mat_mul (mtx (mKeyOwner w)) (locSRMtx (mKeyOwner w)).
Definition worldInvMtx (w : World) : QMatrix4x4 := fst (inverted (worldMtx w)).
Definition hasWorldInv (w : World) : bool := snd (inverted (worldMtx w)).

(* [aCamera.toScreenLength((center - curPos).length()) <= kCrossRadius] *)
Definition focusTest (aCamera : CameraInfo) (aCursor : AbstractCursor)
    (w : World) : bool :=
  fle (toScreenLength aCamera
         (vec_length (vec_sub (getWorldCentroidPos w) (worldPos aCursor))))
      kCrossRadius.

(** [CentroidMode::updateCursor]: the returned flag and the world the
    call leaves; [None] is a failed assertion below it. *)
Definition updateCursor (host : Host) (aCamera : CameraInfo)
    (aCursor : AbstractCursor) (w : World) : option (bool * World) :=
  let curPos := worldPos aCursor in
  let center := getWorldCentroidPos w in
  let prevFocus := mFocusing (this w) in
  let focusing := focusTest aCamera aCursor w in
  let w1 := set_this (set_mFocusing focusing (this w)) w in
  let mod' := negb (Bool.eqb prevFocus focusing) in
  if emitsLeftPressedEvent aCursor then
    if focusing && hasWorldInv w then
      Some (true,
            set_this
              (mkCentroidMode focusing true
                 (vec_sub center curPos)
                 (toVector2D (mat_map (worldInvMtx w) (QVector3D_of_2D center)))
                 None)
              w1)
    else Some (true, w1)
  else if emitsLeftDraggedEvent aCursor then
    if mMoving (this w1) && hasWorldInv w then
      let newLocalCenter :=
        mat_map (worldInvMtx w)
                (QVector3D_of_2D (vec_add curPos (mBaseVec (this w1)))) in
      match moveCentroid host (toVector2D newLocalCenter) w1 with
      | None => None
      | Some w2 =>
          Some (true, set_keyOwner (updatePosture host (mKeyOwner w2)) w2)
      end
    else Some (true, w1)
  else if emitsLeftReleasedEvent aCursor then
    Some (true,
          set_this
            (mkCentroidMode focusing false (mBaseVec (this w1))
               (mBaseCenter (this w1)) None)
            w1)
  else Some (mod', w1).

(* The local position of the handle a grabbing press records. *)
Definition pressLocalCenter (w : World) : QVector2D :=
  toVector2D (mat_map (worldInvMtx w) (QVector3D_of_2D (getWorldCentroidPos w))).

(* The local position a moving drag hands to [moveCentroid]. *)
Definition dragLocalCenter (aCursor : AbstractCursor) (w : World) : QVector2D :=
  toVector2D
    (mat_map (worldInvMtx w)
       (QVector3D_of_2D (vec_add (worldPos aCursor) (mBaseVec (this w))))).


(* The retained pointer, if any, designates a pushed command. *)
Definition refValid (w : World) : bool :=
  match mCommandRef (this w) with
  | Some r => bool_decide (r < length (pushed (mProject w)))%nat
  | None => true
  end.

(** ** Gestures: runs of [updateCursor] calls *)

Record Frame := mkFrame {
  f_host : Host;
  f_camera : CameraInfo;
  f_cursor : AbstractCursor;
}.

Definition step (f : Frame) (w : World) : option (bool * World) :=
  updateCursor (f_host f) (f_camera f) (f_cursor f) w.

(* The world after the calls of [fs], in order. *)
Fixpoint run (fs : list Frame) (w : World) : option World :=
  match fs with
  | [] => Some w
  | f :: fs' =>
      match step f w with
      | None => None
      | Some (_, w') => run fs' w'
      end
  end.

(* The flags the calls of [fs] return, and the world they leave. *)
Fixpoint calls (fs : list Frame) (w : World) : option (list bool * World) :=
  match fs with
  | [] => Some ([], w)
  | f :: fs' =>
      match step f w with
      | None => None
      | Some (b, w') =>
          match calls fs' w' with
          | None => None
          | Some (bs, w'') => Some (b :: bs, w'')
          end
      end
  end.

(* Which branch of the if / else-if chain a cursor reaches. *)
Definition isPress (c : AbstractCursor) : bool := emitsLeftPressedEvent c.
Definition isDrag (c : AbstractCursor) : bool :=
  negb (emitsLeftPressedEvent c) && emitsLeftDraggedEvent c.
Definition isRelease (c : AbstractCursor) : bool :=
  negb (emitsLeftPressedEvent c) && negb (emitsLeftDraggedEvent c)
  && emitsLeftReleasedEvent c.
Definition isIdle (c : AbstractCursor) : bool :=
  negb (emitsLeftPressedEvent c) && negb (emitsLeftDraggedEvent c)
  && negb (emitsLeftReleasedEvent c).

(* The pointer assertions of [pushEventTarget] hold on a node. *)
Definition hasTimeLine (n : ObjectNode) : bool :=
  match timeLine n with Some _ => true | None => false end.
Definition assertsHold (n : ObjectNode) : bool :=
  hasTimeLine n && (negb (canHoldChild n) || forallb hasTimeLine (children n)).

(* A press that grabs the handle: focused, with an invertible matrix. *)
Definition grabs (f : Frame) (w : World) : bool :=
  isPress (f_cursor f) && focusTest (f_camera f) (f_cursor f) w && hasWorldInv w.

(* Every frame of [ds] is a drag that reads an invertible world
   matrix and, unless it is the [first] of the gesture, a stack that
   reports the retained command modifiable. *)
Fixpoint dragsOk (first : bool) (ds : list Frame) (w : World) : bool :=
  match ds with
  | [] => true
  | d :: ds' =>
      isDrag (f_cursor d) && hasWorldInv w
      && (first || refModifiable (f_host d) w)
      && match step d w with
         | Some (_, w') => dragsOk false ds' w'
         | None => true
         end
  end.

(* A grabbing press followed by the drags [ds]. *)
Definition gestureOk (p : Frame) (ds : list Frame) (w : World) : bool :=
  grabs p w
  && match step p w with
     | Some (_, wp) => dragsOk true ds wp
     | None => false
     end.

(* The last drag of a gesture reads an invertible world matrix. *)
Definition lastDragInvertible (fs : list Frame) (w : World) : bool :=
  match run fs w with
  | Some wk => hasWorldInv wk
  | None => false
  end.

(* What holds of the world between the grabbing press and the release
   of a gesture on [tgt] with base vector [bv] and base centre [bc]:
   the manipulator is moving, and the command it retains, if any, is
   one it built for this gesture. *)
Definition gestureInv (tgt : ObjectNode) (bv bc : QVector2D) (w : World)
    : Prop :=
  mTarget w = tgt
  /\ mMoving (this w) = true
  /\ mBaseVec (this w) = bv
  /\ mBaseCenter (this w) = bc
  /\ match mCommandRef (this w) with
     | Some r => exists v, pushed (mProject w) !! r = Some (mkCentroidMover tgt bc v)
     | None => True
     end.

(* Every frame of [ds] is a drag. *)
Definition allDrags (ds : list Frame) : bool :=
  forallb (fun d => isDrag (f_cursor d)) ds.

(** ** Construction *)



(** ** Vocabulary for the statements below *)

(* The frames of a node's transform channel, in iteration order, and the
   targets [pushEventTarget] makes of them. *)
Definition srtKeys (n : ObjectNode) : list Z :=
  match timeLine n with
  | Some tl => map_keys (tl_map tl TimeKeyType_SRT)
  | None => []
  end.
Definition srtTargets (n : ObjectNode) : list Target :=
  mkTarget n TimeKeyType_SRT <$> srtKeys n.
Definition srtCount (n : ObjectNode) : nat :=
  match timeLine n with
  | Some tl => size (tl_map tl TimeKeyType_SRT)
  | None => 0%nat
  end.

(* No frame of [fs] carries a left-press. *)
Definition noPress (fs : list Frame) : bool :=
  forallb (fun f => negb (isPress (f_cursor f))) fs.

(* The number of frames of [fs] that reach the drag branch. *)
Definition dragCount (fs : list Frame) : nat :=
  length (filter (fun f => isDrag (f_cursor f) = true) fs).

(* [x] compares with the bounds as a number does: [x < lo] holds exactly
   when [lo <= x] fails, and [hi < x] exactly when [x <= hi] fails.
   Every IEEE value but NaN does. *)
Definition numberLike (lo hi x : float) : bool :=
  Bool.eqb (flt x lo) (negb (fle lo x))
  && Bool.eqb (flt hi x) (negb (fle x hi)).


(* The event both branches of [moveCentroid] hand to [pushEventTarget]. *)
Definition changeKeyValueEvent : TimeLineEvent :=
  setType Type_ChangeKeyValue TimeLineEvent_new.

End Model.

(** ** Rendering *)

(** What [renderQt] needs beyond the collaborators above: the camera's
    [toScreenPos] and the pen width [1.5f], which is no whole number. *)
Class Painting `{Collaborators} := {
  QPointF : Type;
  mkPointF : float -> float -> QPointF;       (* [QPointF(x, y)] *)
  pt_add : QPointF -> QPointF -> QPointF;     (* [a + b] *)
  pt_sub : QPointF -> QPointF -> QPointF;     (* [a - b] *)
  toPointF : QVector2D -> QPointF;            (* [v.toPointF()] *)
  toScreenPos : CameraInfo -> QPointF -> QPointF;
  penWidth : float;                           (* [1.5f] *)
}.

Section Render.
Context `{Painting}.

(* [QColor(r, g, b, a)] *)
Record QColor := mkColor { c_red : Z; c_green : Z; c_blue : Z; c_alpha : Z }.

Inductive PenStyle := SolidLine | DashLine.

(* The calls [renderQt] makes on the painter. *)
Inductive PaintCall :=
| setPen (brush : QColor) (width : float) (style : PenStyle)
| setBrush (brush : QColor)
| drawEllipse (center : QPointF) (rx ry : float)
| drawLine (p1 p2 : QPointF).

Definition idleColor : QColor := mkColor 100 100 255 255.
Definition focusColor : QColor := mkColor 255 255 255 255.

(** [CentroidMode::renderQt]: the painter calls, in order. *)
Definition renderQt (camera : CameraInfo) (w : World) : list PaintCall :=
  let brush :=
    if mFocusing (this w) || mMoving (this w) then focusColor else idleColor in
  let c := toScreenPos camera (toPointF (getWorldCentroidPos w)) in
  let h := mkPointF kCrossRadius (float_lit 0) in
  let v := mkPointF (float_lit 0) kCrossRadius in
  let hs := mkPointF kCrossSub (float_lit 0) in
  let vs := mkPointF (float_lit 0) kCrossSub in
  [ setPen brush penWidth SolidLine;
    setBrush brush;
    drawEllipse c kTransRange kTransRange;
    setPen brush penWidth DashLine;
    drawLine (pt_sub c h) (pt_sub c hs);
    drawLine (pt_add c h) (pt_add c hs);
    drawLine (pt_sub c v) (pt_sub c vs);
    drawLine (pt_add c v) (pt_add c vs) ].

(* The same calls with the brush as a parameter. *)
Definition handleCalls (brush : QColor) (c : QPointF) : list PaintCall :=
  [ setPen brush penWidth SolidLine;
    setBrush brush;
    drawEllipse c kTransRange kTransRange;
    setPen brush penWidth DashLine;
    drawLine (pt_sub c (mkPointF kCrossRadius (float_lit 0)))
             (pt_sub c (mkPointF kCrossSub (float_lit 0)));
    drawLine (pt_add c (mkPointF kCrossRadius (float_lit 0)))
             (pt_add c (mkPointF kCrossSub (float_lit 0)));
    drawLine (pt_sub c (mkPointF (float_lit 0) kCrossRadius))
             (pt_sub c (mkPointF (float_lit 0) kCrossSub));
    drawLine (pt_add c (mkPointF (float_lit 0) kCrossRadius))
             (pt_add c (mkPointF (float_lit 0) kCrossSub)) ].

End Render.

(** ** An integer-grid instance of the collaborators

    Coordinates are integers; a matrix is a uniform scale followed by a
    translation, invertible on the grid when the scale is 1 or -1; the
    camera is a zoom factor.  The instance runs the definitions above on
    closed inputs. *)

Module Grid.

#[export] Instance grid_float : FloatOps := {|
  float := Z;
  float_lit := fun n => n;
  fadd := Z.add;
  fsub := Z.sub;
  fle := Z.leb;
  flt := Z.ltb;
|}.

Record GMatrix := mkG { g_scale : Z; g_tx : Z; g_ty : Z }.

Definition g_mul (a b : GMatrix) : GMatrix :=
  mkG (g_scale a * g_scale b)
      (g_scale a * g_tx b + g_tx a)
      (g_scale a * g_ty b + g_ty a).

Definition g_inverted (m : GMatrix) : GMatrix * bool :=
  if g_scale m =? 1 then (mkG 1 (- g_tx m) (- g_ty m), true)
  else if g_scale m =? -1 then (mkG (-1) (g_tx m) (g_ty m), true)
  else (mkG 1 0 0, false).

Definition g_map (m : GMatrix) (v : QVector3D) : QVector3D :=
  mkVec3 (g_scale m * v3x v + g_tx m) (g_scale m * v3y v + g_ty m)
         (g_scale m * v3z v).

Definition g_length (v : QVector2D) : Z :=
  Z.sqrt (vx v * vx v + vy v * vy v).

#[export] Instance grid : Collaborators := {|
  QMatrix4x4 := GMatrix;
  mat_mul := g_mul;
  inverted := g_inverted;
  mat_map := g_map;
  vec_length := g_length;
  CameraInfo := Z;
  toScreenLength := fun zoom len => zoom * len;
  TimeKey := unit;
  transMin := -1000;
  transMax := 1000;
|}.

Definition keys3 : gmap Z unit := {[ 0 := (); 10 := (); 20 := () ]}.
Definition keys1 : gmap Z unit := {[ 5 := () ]}.

Definition timeLineOf (srt image : gmap Z unit) : TimeLine :=
  mkTimeLine (fun ty =>
    match ty with TimeKeyType_SRT => srt | TimeKeyType_Image => image end).

(* A layer with three transform keys and no image key. *)
Definition leaf3 : ObjectNode :=
  mkObjectNode false (Some (timeLineOf keys3 ∅)) [].
(* A layer with three transform keys and one image key. *)
Definition layer31 : ObjectNode :=
  mkObjectNode false (Some (timeLineOf keys3 keys1)) [].
(* A folder with three transform keys and two such children. *)
Definition folder : ObjectNode :=
  mkObjectNode true (Some (timeLineOf keys3 ∅)) [leaf3; layer31].
Definition identity : GMatrix := mkG 1 0 0.

Definition idle0 : CentroidMode :=
  mkCentroidMode false false (mkVec2 0 0) (mkVec2 0 0) None.

(* The handle sits at (100, 50); the key owner's matrices are regular. *)
Definition world0 : World :=
  mkWorld idle0 (mkProject [] [] []) folder
          (mkKeyOwner identity identity (mkG 1 100 50)).

(* Mid-gesture: the handle was grabbed 3 right and 4 below its centre. *)
Definition worldMoving : World :=
  mkWorld (mkCentroidMode true true (mkVec2 (-3) (-4)) (mkVec2 100 50) None)
          (mkProject [] [] []) folder
          (mkKeyOwner identity identity (mkG 1 100 50)).

Definition yes : Host := mkHost (fun _ => true) (fun k => k).
Definition no : Host := mkHost (fun _ => false) (fun k => k).

(* A local position far outside the translation range. *)
Definition farAway : QVector2D := mkVec2 5000 (-7000).

Definition cursorAt (x y : Z) (p d r : bool) : AbstractCursor :=
  mkCursor (mkVec2 x y) p d r.

Definition press (x y : Z) : Frame := mkFrame yes 1 (cursorAt x y true false false).
Definition drag (h : Host) (x y : Z) : Frame := mkFrame h 1 (cursorAt x y false true false).
Definition release (x y : Z) : Frame := mkFrame yes 1 (cursorAt x y false false true).
Definition hover (x y : Z) : Frame := mkFrame yes 1 (cursorAt x y false false false).

(* Screen points are pairs of integers; the camera zooms about the
   origin; the pen width is rounded to 2. *)
#[export] Instance grid_painting : Painting := {|
  QPointF := Z * Z;
  mkPointF := fun x y => (x, y);
  pt_add := fun a b => (a.1 + b.1, a.2 + b.2);
  pt_sub := fun a b => (a.1 - b.1, a.2 - b.2);
  toPointF := fun v => (vx v, vy v);
  toScreenPos := fun zoom pt => (zoom * pt.1, zoom * pt.2);
  penWidth := 2;
|}.

(* A layer whose frame 10 carries a transform key and an image key. *)
Definition keys10 : gmap Z unit := {[ 10 := () ]}.
Definition layerBoth : ObjectNode :=
  mkObjectNode false (Some (timeLineOf keys3 keys10)) [].
(* A folder one of whose children has no timeline. *)
Definition folderBad : ObjectNode :=
  mkObjectNode true (Some (timeLineOf keys3 ∅))
    [leaf3; mkObjectNode false None []].
(* A folder whose second child is itself a folder. *)
Definition nested : ObjectNode :=
  mkObjectNode true (Some (timeLineOf keys1 ∅)) [leaf3; folder].

Definition project0 : Project := mkProject [] [] [].
Definition keyOwner0 : KeyOwner := mkKeyOwner identity identity (mkG 1 100 50).

(* The cursor emits a press and a drag at once. *)
Definition pressAndDrag : AbstractCursor := cursorAt 103 54 true true false.

(* A world without pointer-asserted timelines on its target. *)
Definition worldBare : World :=
  mkWorld idle0 project0 (mkObjectNode false None []) keyOwner0.

(* Mid-gesture on a folder one of whose children has no timeline. *)
Definition worldMovingBad : World :=
  mkWorld (mkCentroidMode true true (mkVec2 (-3) (-4)) (mkVec2 100 50) None)
          project0 folderBad keyOwner0.

(* The key owner sits under a parent moved 20 to the right; during the
   gesture the posture update finds the parent moved to 10. *)
Definition worldParent : World :=
  mkWorld idle0 project0 leaf3 (mkKeyOwner (mkG 1 20 0) identity (mkG 1 100 50)).
Definition reparenting : Host :=
  mkHost (fun _ => true)
         (fun k => mkKeyOwner (mkG 1 10 0) (locSRMtx k) (locMtx k)).
Definition pressP : Frame := mkFrame yes 1 (cursorAt 123 54 true false false).
Definition dragP1 : Frame := mkFrame reparenting 1 (cursorAt 130 60 false true false).
Definition dragP2 : Frame := mkFrame reparenting 1 (cursorAt 140 70 false true false).
Definition releaseP : Frame := release 140 70.

(* A stack with one command of an earlier gesture, still retained. *)
Definition earlier : CentroidMover := mkCentroidMover folder (mkVec2 1 2) (mkVec2 3 4).
Definition worldRetaining : World :=
  mkWorld (mkCentroidMode true true (mkVec2 (-3) (-4)) (mkVec2 100 50) (Some 0%nat))
          (mkProject [earlier] [] []) folder keyOwner0.

End Grid.

(** ** An IEEE instance of the collaborators

    [float] is the kernel's binary64 type with its own comparisons, so
    NaN is a value of the instance; a matrix is a translation; the
    camera is a zoom factor. *)

Module Ieee.

Fixpoint float_of_pos (p : positive) : PrimFloat.float :=
  match p with
  | xH => 1%float
  | xO q => (2 * float_of_pos q)%float
  | xI q => (2 * float_of_pos q + 1)%float
  end.

Definition float_of_Z (n : Z) : PrimFloat.float :=
  match n with
  | Z0 => 0%float
  | Zpos q => float_of_pos q
  | Zneg q => (- float_of_pos q)%float
  end.

#[export] Instance ieee_float : FloatOps := {|
  float := PrimFloat.float;
  float_lit := float_of_Z;
  fadd := PrimFloat.add;
  fsub := PrimFloat.sub;
  fle := PrimFloat.leb;
  flt := PrimFloat.ltb;
|}.

Record Shift := mkShift { s_tx : PrimFloat.float; s_ty : PrimFloat.float }.

#[export] Instance ieee : Collaborators := {|
  QMatrix4x4 := Shift;
  mat_mul := fun a b => mkShift (s_tx a + s_tx b)%float (s_ty a + s_ty b)%float;
  inverted := fun m => (mkShift (- s_tx m)%float (- s_ty m)%float, true);
  mat_map := fun m v => mkVec3 (v3x v + s_tx m)%float (v3y v + s_ty m)%float (v3z v);
  vec_length := fun v => PrimFloat.sqrt (vx v * vx v + vy v * vy v)%float;
  CameraInfo := PrimFloat.float;
  toScreenLength := fun zoom len => (zoom * len)%float;
  TimeKey := unit;
  transMin := (-1000)%float;
  transMax := 1000%float;
|}.






End Ieee.

(** ** Event targeting *)

Section EventTargets.
Context `{Collaborators}.

Lemma length_map_keys (m : gmap Z TimeKey) : length (map_keys m) = size m.
Proof.
  unfold map_keys.
  rewrite (Permutation_length (merge_sort_Permutation Z.le _)).
  by rewrite length_fmap, length_map_to_list.
Qed.

Lemma map_keys_sorted (m : gmap Z TimeKey) : Sorted Z.le (map_keys m).
Proof. unfold map_keys. apply (Sorted_merge_sort Z.le). Qed.

Lemma foldl_pushTarget node ty ks e :
  ev_targets (foldl (fun acc k => pushTarget node ty k acc) e ks)
  = ev_targets e ++ (mkTarget node ty <$> ks).
Proof.
  revert e. induction ks as [|k ks IH]; intros e; simpl.
  - by rewrite app_nil_r.
  - rewrite IH. simpl. by rewrite <- app_assoc.
Qed.

Lemma pushKeys_targets node ty m e :
  ev_targets (pushKeys node ty m e)
  = ev_targets e ++ (mkTarget node ty <$> map_keys m).
Proof. apply foldl_pushTarget. Qed.

Lemma pushKeys_length node ty m e :
  length (ev_targets (pushKeys node ty m e))
  = (length (ev_targets e) + size m)%nat.
Proof.
  by rewrite pushKeys_targets, length_app, length_fmap, length_map_keys.
Qed.

Lemma pushChildren_total cs e :
  forallb hasTimeLine cs = true -> is_Some (pushChildren cs e).
Proof.
  revert e. induction cs as [|c cs IH]; intros e Hcs; simpl in *.
  - by eexists.
  - apply andb_prop in Hcs as [Hc Hcs]. unfold hasTimeLine in Hc.
    destruct (timeLine c); [by apply IH | discriminate].
Qed.

Lemma pushEventTarget_total n e :
  assertsHold n = true -> is_Some (pushEventTarget n e).
Proof.
  unfold assertsHold, pushEventTarget, hasTimeLine. intros Hn.
  apply andb_prop in Hn as [Htl Hcs].
  destruct (timeLine n); [|discriminate].
  destruct (canHoldChild n); simpl in Hcs.
  - by apply pushChildren_total.
  - by eexists.
Qed.

(* A target without a timeline trips the pointer assertion. *)
Lemma pushEventTarget_asserts node e :
  timeLine node = None -> pushEventTarget node e = None.
Proof. intros Hn. unfold pushEventTarget. by rewrite Hn. Qed.

Lemma pushEventTarget_leaf node tl e :
  canHoldChild node = false -> timeLine node = Some tl ->
  pushEventTarget node e
  = Some (pushKeys node TimeKeyType_SRT (tl_map tl TimeKeyType_Image)
            (pushKeys node TimeKeyType_SRT (tl_map tl TimeKeyType_SRT) e)).
Proof. intros Hc Htl. unfold pushEventTarget. by rewrite Htl, Hc. Qed.

(** C6: on a node that cannot hold children, [pushEventTarget] pushes
    one target per key of the node's transform channel and then one
    target per key of its image channel, every one of them tagged with
    the transform-key kind; the number of targets it adds is the
    transform-key count plus the image-key count. *)
Theorem leaf_enumerates_image_keys_as_srt
    (node : ObjectNode) (tl : TimeLine) (e : TimeLineEvent) :
  canHoldChild node = false ->
  timeLine node = Some tl ->
  exists e',
    pushEventTarget node e = Some e'
    /\ ev_type e' = ev_type e
    /\ ev_targets e'
       = ev_targets e
         ++ (mkTarget node TimeKeyType_SRT <$> map_keys (tl_map tl TimeKeyType_SRT))
         ++ (mkTarget node TimeKeyType_SRT <$> map_keys (tl_map tl TimeKeyType_Image))
    /\ length (map_keys (tl_map tl TimeKeyType_Image))
       = size (tl_map tl TimeKeyType_Image)
    /\ length (ev_targets e')
       = (length (ev_targets e)
          + size (tl_map tl TimeKeyType_SRT)
          + size (tl_map tl TimeKeyType_Image))%nat.
Proof.
  intros Hc Htl. eexists. split; [by apply pushEventTarget_leaf|].
  split; [|split; [|split]].
  - unfold pushKeys.
    generalize (map_keys (tl_map tl TimeKeyType_Image)) as ks2.
    generalize (map_keys (tl_map tl TimeKeyType_SRT)) as ks1.
    intros ks1 ks2. revert e.
    assert (Hty : forall ks n0 e0,
      ev_type (foldl (fun acc k => pushTarget n0 TimeKeyType_SRT k acc) e0 ks)
      = ev_type e0).
    { induction ks as [|k ks IH]; intros n0 e0; simpl; [done|by rewrite IH]. }
    intros e. by rewrite !Hty.
  - by rewrite !pushKeys_targets, <- app_assoc.
  - apply length_map_keys.
  - by rewrite !pushKeys_length.
Qed.

(** C5 (amended): from a node that can hold children, has two direct
    children, and where the node and each child have exactly three
    transform-channel keys, the enumeration adds exactly 9 targets;
    from a node that cannot hold children and has exactly three
    transform-channel keys it adds 3 targets plus one per
    image-channel key, hence exactly 3 when the image channel has no
    key. *)
Theorem event_target_counts :
  (forall (node c1 c2 : ObjectNode) (tl tl1 tl2 : TimeLine) (e : TimeLineEvent),
      canHoldChild node = true ->
      children node = [c1; c2] ->
      timeLine node = Some tl ->
      timeLine c1 = Some tl1 ->
      timeLine c2 = Some tl2 ->
      size (tl_map tl TimeKeyType_SRT) = 3%nat ->
      size (tl_map tl1 TimeKeyType_SRT) = 3%nat ->
      size (tl_map tl2 TimeKeyType_SRT) = 3%nat ->
      exists e',
        pushEventTarget node e = Some e'
        /\ length (ev_targets e') = (length (ev_targets e) + 9)%nat)
  /\ (forall (node : ObjectNode) (tl : TimeLine) (e : TimeLineEvent),
      canHoldChild node = false ->
      timeLine node = Some tl ->
      size (tl_map tl TimeKeyType_SRT) = 3%nat ->
      exists e',
        pushEventTarget node e = Some e'
        /\ length (ev_targets e')
           = (length (ev_targets e) + 3 + size (tl_map tl TimeKeyType_Image))%nat
        /\ (size (tl_map tl TimeKeyType_Image) = 0%nat ->
            length (ev_targets e') = (length (ev_targets e) + 3)%nat)).
Proof.
  split.
  - intros node c1 c2 tl tl1 tl2 e Hc Hcs Htl Htl1 Htl2 Hn Hn1 Hn2.
    unfold pushEventTarget. rewrite Htl, Hc, Hcs. simpl.
    rewrite Htl1, Htl2. eexists. split; [reflexivity|].
    rewrite !pushKeys_length, Hn, Hn1, Hn2. lia.
  - intros node tl e Hc Htl Hn.
    eexists. split; [by apply pushEventTarget_leaf|].
    rewrite !pushKeys_length, Hn. split; [done|]. intros ->. lia.
Qed.

End EventTargets.

(** ** The move protocol *)

Section MoveProtocol.
Context `{Collaborators}.

Lemma moveCentroid_create host v w :
  assertsHold (mTarget w) = true ->
  refModifiable host w = false ->
  exists ev,
    moveCentroid host v w
    = Some (set_this (set_mCommandRef (Some (length (pushed (mProject w)))) (this w))
              (set_project
                 (mkProject
                    (pushed (mProject w)
                     ++ [mkCentroidMover (mTarget w) (mBaseCenter (this w)) (clampCenter v)])
                    (macros (mProject w)
                     ++ [mkMacro "move centroid"
                           [TimeLineNotifier ev; AttributeNotifier (mTarget w)]])
                    (notified (mProject w)))
                 w)).
Proof.
  intros Hok Hmod.
  destruct (pushEventTarget_total (mTarget w)
              (setType Type_ChangeKeyValue TimeLineEvent_new) Hok) as [ev Hev].
  exists ev. unfold moveCentroid, refModifiable in *.
  unfold assertsHold, hasTimeLine in Hok.
  destruct (timeLine (mTarget w)); [|discriminate].
  assert (Hc : createCommand (clampCenter v) w = Some
    (set_this (set_mCommandRef (Some (length (pushed (mProject w)))) (this w))
       (set_project
          (mkProject
             (pushed (mProject w)
              ++ [mkCentroidMover (mTarget w) (mBaseCenter (this w)) (clampCenter v)])
             (macros (mProject w)
              ++ [mkMacro "move centroid"
                    [TimeLineNotifier ev; AttributeNotifier (mTarget w)]])
             (notified (mProject w)))
          w))).
  { unfold createCommand. by rewrite Hev. }
  destruct (mCommandRef (this w)) as [r|]; [|exact Hc].
  by rewrite Hmod.
Qed.

Lemma moveCentroid_modify host v w r :
  assertsHold (mTarget w) = true ->
  mCommandRef (this w) = Some r ->
  isModifiable host r = true ->
  exists ev,
    moveCentroid host v w
    = Some (set_project
              (mkProject
                 (alter (modifyValue (clampCenter v)) r (pushed (mProject w)))
                 (macros (mProject w))
                 (notified (mProject w)
                  ++ [onTimeLineModified ev false;
                      onNodeAttributeModified (mTarget w) false]))
              w).
Proof.
  intros Hok Hr Hmod.
  destruct (pushEventTarget_total (mTarget w)
              (setType Type_ChangeKeyValue TimeLineEvent_new) Hok) as [ev Hev].
  exists ev. unfold moveCentroid.
  unfold assertsHold, hasTimeLine in Hok.
  destruct (timeLine (mTarget w)); [|discriminate].
  rewrite Hr, Hmod. unfold modifyCommand. by rewrite Hev.
Qed.

(** *** The branches of [updateCursor] *)

Lemma updateCursor_idle host cam cur w :
  isIdle cur = true ->
  updateCursor host cam cur w
  = Some (negb (Bool.eqb (mFocusing (this w)) (focusTest cam cur w)),
          set_this (set_mFocusing (focusTest cam cur w) (this w)) w).
Proof.
  unfold isIdle, updateCursor. intros Hc.
  destruct (emitsLeftPressedEvent cur), (emitsLeftDraggedEvent cur),
    (emitsLeftReleasedEvent cur); try discriminate. reflexivity.
Qed.

Lemma updateCursor_release host cam cur w :
  isRelease cur = true ->
  updateCursor host cam cur w
  = Some (true,
          set_this (mkCentroidMode (focusTest cam cur w) false
                      (mBaseVec (this w)) (mBaseCenter (this w)) None) w).
Proof.
  unfold isRelease, updateCursor. intros Hc.
  destruct (emitsLeftPressedEvent cur), (emitsLeftDraggedEvent cur),
    (emitsLeftReleasedEvent cur); try discriminate. reflexivity.
Qed.

Lemma updateCursor_press host cam cur w :
  isPress cur = true ->
  updateCursor host cam cur w
  = Some (true,
          if focusTest cam cur w && hasWorldInv w
          then set_this (mkCentroidMode (focusTest cam cur w) true
                           (vec_sub (getWorldCentroidPos w) (worldPos cur))
                           (pressLocalCenter w) None) w
          else set_this (set_mFocusing (focusTest cam cur w) (this w)) w).
Proof.
  unfold isPress, updateCursor. intros ->.
  by destruct (focusTest cam cur w && hasWorldInv w).
Qed.

Lemma updateCursor_drag_skip host cam cur w :
  isDrag cur = true ->
  mMoving (this w) && hasWorldInv w = false ->
  updateCursor host cam cur w
  = Some (true, set_this (set_mFocusing (focusTest cam cur w) (this w)) w).
Proof.
  unfold isDrag, updateCursor. intros Hc Hm.
  destruct (emitsLeftPressedEvent cur), (emitsLeftDraggedEvent cur);
    try discriminate.
  simpl. by rewrite Hm.
Qed.

Lemma updateCursor_drag_move host cam cur w :
  isDrag cur = true ->
  mMoving (this w) = true ->
  hasWorldInv w = true ->
  updateCursor host cam cur w
  = match moveCentroid host (dragLocalCenter cur w)
            (set_this (set_mFocusing (focusTest cam cur w) (this w)) w) with
    | None => None
    | Some w2 => Some (true, set_keyOwner (updatePosture host (mKeyOwner w2)) w2)
    end.
Proof.
  unfold isDrag, updateCursor. intros Hc Hm Hi.
  destruct (emitsLeftPressedEvent cur), (emitsLeftDraggedEvent cur);
    try discriminate.
  simpl. by rewrite Hm, Hi.
Qed.

(* One drag call that reaches [moveCentroid]. *)
Lemma updateCursor_drag_moving host cam cur w :
  isDrag cur = true ->
  mMoving (this w) = true ->
  hasWorldInv w = true ->
  assertsHold (mTarget w) = true ->
  exists w',
    updateCursor host cam cur w = Some (true, w')
    /\ mTarget w' = mTarget w
    /\ mKeyOwner w' = updatePosture host (mKeyOwner w)
    /\ mFocusing (this w') = focusTest cam cur w
    /\ mMoving (this w') = true
    /\ mBaseVec (this w') = mBaseVec (this w)
    /\ mBaseCenter (this w') = mBaseCenter (this w)
    /\ (if refModifiable host w
        then mCommandRef (this w') = mCommandRef (this w)
             /\ exists r, mCommandRef (this w) = Some r
                /\ pushed (mProject w')
                   = alter (modifyValue (clampCenter (dragLocalCenter cur w))) r
                       (pushed (mProject w))
        else mCommandRef (this w') = Some (length (pushed (mProject w)))
             /\ pushed (mProject w')
                = pushed (mProject w)
                  ++ [mkCentroidMover (mTarget w) (mBaseCenter (this w))
                        (clampCenter (dragLocalCenter cur w))]).
Proof.
  intros Hd Hm Hi Hok.
  rewrite (updateCursor_drag_move host cam cur w Hd Hm Hi).
  set (w1 := set_this (set_mFocusing (focusTest cam cur w) (this w)) w).
  destruct (refModifiable host w) eqn:Hmod.
  - unfold refModifiable in Hmod.
    destruct (mCommandRef (this w)) as [r|] eqn:Hr; [|discriminate].
    destruct (moveCentroid_modify host (dragLocalCenter cur w) w1 r)
      as [ev ->]; [done| by subst w1; simpl |done|].
    eexists. split; [reflexivity|]. subst w1; simpl.
    repeat split; eauto.
  - destruct (moveCentroid_create host (dragLocalCenter cur w) w1)
      as [ev ->]; [done|done|].
    eexists. split; [reflexivity|]. subst w1; simpl.
    repeat split; eauto.
Qed.

Lemma cursor_cases cur :
  isPress cur = true \/ isDrag cur = true \/ isRelease cur = true
  \/ isIdle cur = true.
Proof.
  unfold isPress, isDrag, isRelease, isIdle.
  destruct (emitsLeftPressedEvent cur), (emitsLeftDraggedEvent cur),
    (emitsLeftReleasedEvent cur); simpl; auto.
Qed.

End MoveProtocol.

(** ** Properties of one call *)

Section Calls.
Context `{Collaborators}.

(** C2: when the stack does not report the retained command
    modifiable, or no command is retained, the centroid move builds a
    new command from the target, the base centre and the clamped
    value, pushes it after the commands already there (which stay as
    they were) and retains it; so does the drag call that reaches the
    move. *)
Theorem stale_command_starts_new_one
    (host : Host) (cam : CameraInfo) (cur : AbstractCursor) (w : World) :
  assertsHold (mTarget w) = true ->
  refModifiable host w = false ->
  (forall v, exists w',
      moveCentroid host v w = Some w'
      /\ pushed (mProject w')
         = pushed (mProject w)
           ++ [mkCentroidMover (mTarget w) (mBaseCenter (this w)) (clampCenter v)]
      /\ mCommandRef (this w') = Some (length (pushed (mProject w))))
  /\ (isDrag cur = true -> mMoving (this w) = true -> hasWorldInv w = true ->
      exists w',
        updateCursor host cam cur w = Some (true, w')
        /\ pushed (mProject w')
           = pushed (mProject w)
             ++ [mkCentroidMover (mTarget w) (mBaseCenter (this w))
                   (clampCenter (dragLocalCenter cur w))]
        /\ mCommandRef (this w') = Some (length (pushed (mProject w)))).
Proof.
  intros Hok Hmod. split.
  - intros v. destruct (moveCentroid_create host v w Hok Hmod) as [ev ->].
    eexists. split; [reflexivity|]. by simpl.
  - intros Hd Hm Hi.
    destruct (updateCursor_drag_moving host cam cur w Hd Hm Hi Hok)
      as (w' & Hw' & _ & _ & _ & _ & _ & _ & Hbr).
    rewrite Hmod in Hbr. destruct Hbr as [Hr Hp]. eauto.
Qed.





Lemma moveCentroid_frame host v w w' :
  moveCentroid host v w = Some w' ->
  mFocusing (this w') = mFocusing (this w)
  /\ mMoving (this w') = mMoving (this w)
  /\ mBaseVec (this w') = mBaseVec (this w)
  /\ mBaseCenter (this w') = mBaseCenter (this w)
  /\ mTarget w' = mTarget w
  /\ mKeyOwner w' = mKeyOwner w.
Proof.
  unfold moveCentroid, modifyCommand, createCommand.
  destruct (timeLine (mTarget w)); [|discriminate].
  destruct (pushEventTarget (mTarget w) _); [|by repeat case_match].
  destruct (mCommandRef (this w)) as [r|]; [destruct (isModifiable host r)|];
    intros; by simplify_eq.
Qed.

Lemma updateCursor_focusing host cam cur w changed w' :
  updateCursor host cam cur w = Some (changed, w') ->
  mFocusing (this w') = focusTest cam cur w.
Proof.
  intros Hu.
  destruct (cursor_cases cur) as [Hc|[Hc|[Hc|Hc]]].
  - rewrite (updateCursor_press _ _ _ _ Hc) in Hu. simplify_eq.
    by destruct (focusTest cam cur w && hasWorldInv w).
  - destruct (mMoving (this w) && hasWorldInv w) eqn:Hm.
    + apply andb_prop in Hm as [Hm Hi].
      rewrite (updateCursor_drag_move _ _ _ _ Hc Hm Hi) in Hu.
      destruct (moveCentroid _ _ _) as [w2|] eqn:Hmv; [|discriminate].
      apply moveCentroid_frame in Hmv as (Hf & _). by simplify_eq.
    + rewrite (updateCursor_drag_skip _ _ _ _ Hc Hm) in Hu. by simplify_eq.
  - rewrite (updateCursor_release _ _ _ _ Hc) in Hu. by simplify_eq.
  - rewrite (updateCursor_idle _ _ _ _ Hc) in Hu. by simplify_eq.
Qed.


Lemma idle_call_again host cam cur w :
  isIdle cur = true ->
  mFocusing (this w) = focusTest cam cur w ->
  updateCursor host cam cur w = Some (false, w).
Proof.
  intros Hc Hf. rewrite (updateCursor_idle _ _ _ _ Hc), <- Hf.
  destruct w as [[f m bv bc r] pr tg ko]; simpl.
  by destruct f.
Qed.

(** C8: with a cursor that emits no press, drag or release, one call
    returns, and after it every further call with the same camera and
    cursor, however many and whatever the collaborators would answer,
    returns false and leaves the whole world (the manipulator, the
    target with its keys, the key owner and the project with its
    command stack) as the first call left it. *)
Theorem idle_calls_idempotent
    (host : Host) (cam : CameraInfo) (cur : AbstractCursor) (w : World) :
  isIdle cur = true ->
  exists changed w1,
    updateCursor host cam cur w = Some (changed, w1)
    /\ forall hosts : list Host,
        calls ((fun h => mkFrame h cam cur) <$> hosts) w1
        = Some (replicate (length hosts) false, w1).
Proof.
  intros Hc. rewrite (updateCursor_idle _ _ _ _ Hc).
  eexists _, _. split; [reflexivity|].
  induction hosts as [|h hs IH]; [reflexivity|].
  rewrite fmap_cons. cbn [calls length replicate].
  unfold step at 1. cbn [f_host f_camera f_cursor].
  rewrite idle_call_again by done. by rewrite IH.
Qed.

(** C9: a call carrying a left-release returns true, leaves the
    project, hence the command stack, as it was, sets [mMoving] to
    false and drops the retained command; in particular a press
    directly followed by a release, with no drag in between, leaves the
    command stack as it was before the press. *)
Theorem release_without_drag_pushes_nothing
    (host : Host) (cam : CameraInfo) (cur : AbstractCursor) (w : World) :
  isRelease cur = true ->
  (exists w',
      updateCursor host cam cur w = Some (true, w')
      /\ mProject w' = mProject w
      /\ mMoving (this w') = false
      /\ mCommandRef (this w') = None)
  /\ (forall p : Frame,
        isPress (f_cursor p) = true ->
        exists w',
          run [p; mkFrame host cam cur] w = Some w'
          /\ pushed (mProject w') = pushed (mProject w)
          /\ mProject w' = mProject w
          /\ mMoving (this w') = false
          /\ mCommandRef (this w') = None).
Proof.
  intros Hc. split.
  - rewrite (updateCursor_release _ _ _ _ Hc). eexists. by split.
  - intros p Hp. simpl. unfold step.
    rewrite (updateCursor_press _ _ _ _ Hp). simpl.
    rewrite (updateCursor_release _ _ _ _ Hc).
    eexists. split; [reflexivity|]. simpl.
    by destruct (focusTest (f_camera p) (f_cursor p) w && hasWorldInv w).
Qed.

(** C10: while [mMoving] is true, a call leaves it true unless the call
    carries a left-release, and then it leaves it false; in particular
    a call that finds the cursor out of focus, or the world matrix
    non-invertible, and carries no release keeps [mMoving] true. *)
Theorem moving_cleared_only_by_release
    (host : Host) (cam : CameraInfo) (cur : AbstractCursor) (w : World) :
  assertsHold (mTarget w) = true ->
  mMoving (this w) = true ->
  exists changed w',
    updateCursor host cam cur w = Some (changed, w')
    /\ mMoving (this w') = negb (isRelease cur)
    /\ (mMoving (this w') = false -> isRelease cur = true)
    /\ (focusTest cam cur w = false \/ hasWorldInv w = false ->
        isRelease cur = false -> mMoving (this w') = true).
Proof.
  intros Hok Hm.
  assert (Hgoal : exists changed w',
    updateCursor host cam cur w = Some (changed, w')
    /\ mMoving (this w') = negb (isRelease cur)).
  { destruct (cursor_cases cur) as [Hc|[Hc|[Hc|Hc]]].
    - rewrite (updateCursor_press _ _ _ _ Hc).
      eexists _, _. split; [reflexivity|].
      unfold isRelease. unfold isPress in Hc. rewrite Hc. simpl.
      by destruct (focusTest cam cur w && hasWorldInv w).
    - assert (Hr : isRelease cur = false).
      { unfold isRelease, isDrag in *.
        by destruct (emitsLeftPressedEvent cur), (emitsLeftDraggedEvent cur). }
      rewrite Hr. destruct (hasWorldInv w) eqn:Hi.
      + destruct (updateCursor_drag_moving host cam cur w Hc Hm Hi Hok)
          as (w' & -> & _ & _ & _ & Hm' & _).
        by eexists _, _.
      + rewrite (updateCursor_drag_skip _ _ _ _ Hc)
          by (by rewrite Hi, andb_false_r).
        by eexists _, _.
    - rewrite (updateCursor_release _ _ _ _ Hc), Hc. by eexists _, _.
    - assert (Hr : isRelease cur = false).
      { unfold isRelease, isIdle in *.
        by destruct (emitsLeftPressedEvent cur), (emitsLeftDraggedEvent cur),
          (emitsLeftReleasedEvent cur). }
      rewrite (updateCursor_idle _ _ _ _ Hc), Hr. by eexists _, _. }
  destruct Hgoal as (changed & w' & Hu & Hm').
  exists changed, w'. split; [done|]. split; [done|]. split.
  - rewrite Hm'. by destruct (isRelease cur).
  - intros _ Hr. by rewrite Hm', Hr.
Qed.

End Calls.

(** ** Properties of a whole gesture *)

Section Gestures.
Context `{Collaborators}.

Lemma run_app fs1 fs2 w :
  run (fs1 ++ fs2) w
  = match run fs1 w with Some w1 => run fs2 w1 | None => None end.
Proof.
  revert w. induction fs1 as [|f fs1 IH]; intros w; simpl; [done|].
  destruct (step f w) as [[b w1]|]; [apply IH | done].
Qed.

Lemma step_grab p w :
  grabs p w = true ->
  step p w
  = Some (true,
          set_this (mkCentroidMode true true
                      (vec_sub (getWorldCentroidPos w) (worldPos (f_cursor p)))
                      (pressLocalCenter w) None) w).
Proof.
  unfold grabs, step. intros Hg.
  apply andb_prop in Hg as [Hg Hi]. apply andb_prop in Hg as [Hp Hf].
  by rewrite (updateCursor_press _ _ _ _ Hp), Hf, Hi.
Qed.

Lemma grab_gestureInv p w :
  gestureInv (mTarget w)
    (vec_sub (getWorldCentroidPos w) (worldPos (f_cursor p)))
    (pressLocalCenter w)
    (set_this (mkCentroidMode true true
                 (vec_sub (getWorldCentroidPos w) (worldPos (f_cursor p)))
                 (pressLocalCenter w) None) w).
Proof. by repeat split. Qed.

(* A drag that reaches the move leaves a retained command holding the
   clamped local position of that drag. *)
Lemma step_drag_moving tgt bv bc d w :
  isDrag (f_cursor d) = true ->
  hasWorldInv w = true ->
  assertsHold tgt = true ->
  gestureInv tgt bv bc w ->
  exists w' r,
    step d w = Some (true, w')
    /\ gestureInv tgt bv bc w'
    /\ mCommandRef (this w') = Some r
    /\ pushed (mProject w') !! r
       = Some (mkCentroidMover tgt bc (clampCenter (dragLocalCenter (f_cursor d) w))).
Proof.
  intros Hd Hi Hok (Ht & Hm & Hbv & Hbc & Hr). subst tgt.
  destruct (updateCursor_drag_moving (f_host d) (f_camera d) (f_cursor d) w
              Hd Hm Hi Hok)
    as (w' & Hw' & Ht' & _ & _ & Hm' & Hbv' & Hbc' & Hbr).
  unfold step. rewrite Hw'.
  destruct (refModifiable (f_host d) w) eqn:Hmod.
  - destruct Hbr as (Hr' & r & Hr0 & Hp).
    rewrite Hr0 in Hr, Hr'. destruct Hr as [v Hv].
    assert (Hl : pushed (mProject w') !! r
                 = Some (mkCentroidMover (mTarget w) bc
                           (clampCenter (dragLocalCenter (f_cursor d) w)))).
    { by rewrite Hp, list_lookup_alter_eq, Hv. }
    exists w', r. split; [done|]. split; [|done].
    unfold gestureInv. rewrite Hr', Ht', Hm', Hbv', Hbc'.
    repeat split; try done. by eexists.
  - destruct Hbr as (Hr' & Hp).
    assert (Hl : pushed (mProject w') !! length (pushed (mProject w))
                 = Some (mkCentroidMover (mTarget w) bc
                           (clampCenter (dragLocalCenter (f_cursor d) w)))).
    { by rewrite Hp, lookup_app_r, Nat.sub_diag, Hbc. }
    exists w', (length (pushed (mProject w))). split; [done|]. split; [|done].
    unfold gestureInv. rewrite Hr', Ht', Hm', Hbv', Hbc'.
    repeat split; try done. by eexists.
Qed.

Lemma step_drag tgt bv bc d w :
  isDrag (f_cursor d) = true ->
  assertsHold tgt = true ->
  gestureInv tgt bv bc w ->
  exists w', step d w = Some (true, w') /\ gestureInv tgt bv bc w'.
Proof.
  intros Hd Hok Hinv. destruct (hasWorldInv w) eqn:Hi.
  - destruct (step_drag_moving tgt bv bc d w Hd Hi Hok Hinv)
      as (w' & r & Hs & Hinv' & _). eauto.
  - unfold step.
    rewrite (updateCursor_drag_skip _ _ _ _ Hd) by (by rewrite Hi, andb_false_r).
    eexists. split; [reflexivity|].
    destruct Hinv as (Ht & Hm & Hbv & Hbc & Hr). by repeat split.
Qed.

Lemma run_drags tgt bv bc ds w :
  allDrags ds = true ->
  assertsHold tgt = true ->
  gestureInv tgt bv bc w ->
  exists w', run ds w = Some w' /\ gestureInv tgt bv bc w'.
Proof.
  intros Hds Hok. revert w.
  induction ds as [|d ds IH]; intros w Hinv; [by eexists|].
  simpl in Hds. apply andb_prop in Hds as [Hd Hds].
  destruct (step_drag tgt bv bc d w Hd Hok Hinv) as (w1 & Hs & Hinv1).
  simpl. rewrite Hs. by apply IH.
Qed.

Lemma step_release rel w :
  isRelease (f_cursor rel) = true ->
  exists w',
    step rel w = Some (true, w')
    /\ mProject w' = mProject w
    /\ mMoving (this w') = false
    /\ mCommandRef (this w') = None.
Proof.
  intros Hr. unfold step. rewrite (updateCursor_release _ _ _ _ Hr).
  by eexists.
Qed.

(* The command a gesture leaves retained, in terms of the helpers. *)
Lemma gesture_retained_command
    (p dlast rel : Frame) (ds : list Frame) (w : World) :
  assertsHold (mTarget w) = true ->
  grabs p w = true ->
  allDrags ds = true ->
  isDrag (f_cursor dlast) = true ->
  lastDragInvertible (p :: ds) w = true ->
  isRelease (f_cursor rel) = true ->
  exists wk wl w' r c,
    run (p :: ds) w = Some wk
    /\ step dlast wk = Some (true, wl)
    /\ step rel wl = Some (true, w')
    /\ run (p :: ds ++ [dlast; rel]) w = Some w'
    /\ mCommandRef (this wl) = Some r
    /\ pushed (mProject w') !! r = Some c
    /\ cm_target c = mTarget w
    /\ cm_prev c
       = toVector2D (mat_map (worldInvMtx w) (QVector3D_of_2D (getWorldCentroidPos w)))
    /\ cm_next c
       = clampCenter
           (toVector2D
              (mat_map (worldInvMtx wk)
                 (QVector3D_of_2D
                    (vec_add (worldPos (f_cursor dlast))
                       (vec_sub (getWorldCentroidPos w) (worldPos (f_cursor p)))))))
    /\ (worldMtx wk = worldMtx w ->
        cm_next c
        = clampCenter
            (toVector2D
               (mat_map (worldInvMtx w)
                  (QVector3D_of_2D
                     (vec_add (worldPos (f_cursor dlast))
                        (vec_sub (getWorldCentroidPos w) (worldPos (f_cursor p)))))))).
Proof.
  intros Hok Hg Hds Hd Hlast Hrel.
  pose proof (step_grab p w Hg) as Hp.
  pose proof (grab_gestureInv p w) as Hinv0.
  set (bv := vec_sub (getWorldCentroidPos w) (worldPos (f_cursor p))) in *.
  set (wp := set_this _ w) in *.
  destruct (run_drags _ _ _ ds wp Hds Hok Hinv0) as (wk & Hrun & Hinvk).
  assert (Hrunk : run (p :: ds) w = Some wk) by (simpl; by rewrite Hp).
  unfold lastDragInvertible in Hlast. rewrite Hrunk in Hlast.
  destruct (step_drag_moving _ _ _ dlast wk Hd Hlast Hok Hinvk)
    as (wl & r & Hsl & Hinvl & Hr & Hc).
  destruct (step_release rel wl Hrel) as (w' & Hsr & Hpr & _).
  assert (Hbv : mBaseVec (this wk) = bv) by (by destruct Hinvk as (_ & _ & ? & _)).
  exists wk, wl, w', r, (mkCentroidMover (mTarget w) (pressLocalCenter w)
                      (clampCenter (dragLocalCenter (f_cursor dlast) wk))).
  split; [done|]. split; [done|]. split; [done|]. split.
  { change (p :: ds ++ [dlast; rel]) with ((p :: ds) ++ [dlast; rel]).
    rewrite run_app, Hrunk. simpl. by rewrite Hsl, Hsr. }
  split; [done|]. split; [by rewrite Hpr|].
  split; [done|]. split; [done|].
  unfold dragLocalCenter. rewrite Hbv. split; [done|].
  intros Hmx. unfold worldInvMtx. by rewrite Hmx.
Qed.

(** C3 (amended): after a gesture whose last drag reads an invertible
    world matrix (a grabbing press, any number of drags, that last drag,
    a release) the command the manipulator retained at the last drag is
    on the stack with, as its first value, the local position of the
    handle at press time, that is the world centroid position
    [(mtx * locMtx) * 0] mapped through the inverse of [mtx * locSRMtx]
    as the press read it, and, as its second value, the clamped image
    of (cursor position of the last drag + [baseVec]) under the inverse
    of [mtx * locSRMtx] as the last drag reads it, [baseVec] being the
    handle-minus-cursor offset of the press.  The inverse of the last
    drag is the one of the press when the world matrix has not changed
    in between. *)
Theorem gesture_command_from_to
    (p dlast rel : Frame) (ds : list Frame) (w : World) :
  assertsHold (mTarget w) = true ->
  grabs p w = true ->
  allDrags ds = true ->
  isDrag (f_cursor dlast) = true ->
  lastDragInvertible (p :: ds) w = true ->
  isRelease (f_cursor rel) = true ->
  let pressMtx := mat_mul (mtx (mKeyOwner w)) (locSRMtx (mKeyOwner w)) in
  let center :=
    toVector2D
      (mat_map (mat_mul (mtx (mKeyOwner w)) (locMtx (mKeyOwner w))) QVector3D_null) in
  let baseVec := vec_sub center (worldPos (f_cursor p)) in
  let target := QVector3D_of_2D (vec_add (worldPos (f_cursor dlast)) baseVec) in
  exists wk wl w' r c,
    run (p :: ds) w = Some wk
    /\ step dlast wk = Some (true, wl)
    /\ step rel wl = Some (true, w')
    /\ run (p :: ds ++ [dlast; rel]) w = Some w'
    /\ mCommandRef (this wl) = Some r
    /\ pushed (mProject w') !! r = Some c
    /\ cm_target c = mTarget w
    /\ snd (inverted pressMtx) = true
    /\ snd (inverted (mat_mul (mtx (mKeyOwner wk)) (locSRMtx (mKeyOwner wk)))) = true
    /\ cm_prev c
       = toVector2D (mat_map (fst (inverted pressMtx)) (QVector3D_of_2D center))
    /\ (let local :=
          toVector2D
            (mat_map
               (fst (inverted
                       (mat_mul (mtx (mKeyOwner wk)) (locSRMtx (mKeyOwner wk)))))
               target) in
        cm_next c
        = mkVec2 (xc_clamp (vx local) transMin transMax)
                 (xc_clamp (vy local) transMin transMax))
    /\ (mat_mul (mtx (mKeyOwner wk)) (locSRMtx (mKeyOwner wk)) = pressMtx ->
        let local := toVector2D (mat_map (fst (inverted pressMtx)) target) in
        cm_next c
        = mkVec2 (xc_clamp (vx local) transMin transMax)
                 (xc_clamp (vy local) transMin transMax)).
Proof.
  intros Hok Hg Hds Hd Hlast Hrel pressMtx center baseVec target.
  destruct (gesture_retained_command p dlast rel ds w Hok Hg Hds Hd Hlast Hrel)
    as (wk & wl & w' & r & c & Hk & Hl & Hr & Hrun & Href & Hc & Ht & Hprev
        & Hnext & Hsame).
  exists wk, wl, w', r, c.
  do 7 (split; [assumption|]).
  split.
  { unfold grabs in Hg. by apply andb_prop in Hg as [_ Hi]. }
  split.
  { unfold lastDragInvertible in Hlast. by rewrite Hk in Hlast. }
  split; [exact Hprev|]. split; [exact Hnext|].
  intros Heq. exact (Hsame Heq).
Qed.

(* The drags of a gesture after the first: each finds the command
   pushed by the first drag modifiable and writes into it. *)
Lemma run_later_drags tgt bv bc base ds w :
  assertsHold tgt = true ->
  dragsOk false ds w = true ->
  gestureInv tgt bv bc w ->
  mCommandRef (this w) = Some (length base) ->
  (exists c, pushed (mProject w) = base ++ [c]) ->
  exists w',
    run ds w = Some w'
    /\ gestureInv tgt bv bc w'
    /\ mCommandRef (this w') = Some (length base)
    /\ (exists c, pushed (mProject w') = base ++ [c])
    /\ forall ds1 dk ds2,
        ds = ds1 ++ dk :: ds2 ->
        exists wa wb,
          run ds1 w = Some wa
          /\ step dk wa = Some (true, wb)
          /\ mCommandRef (this wa) = Some (length base)
          /\ mCommandRef (this wb) = Some (length base)
          /\ pushed (mProject wb)
             = alter (modifyValue (clampCenter (dragLocalCenter (f_cursor dk) wa)))
                 (length base) (pushed (mProject wa)).
Proof.
  intros Hok. revert w.
  induction ds as [|d ds IH]; intros w Hds Hinv Hr [c Hc].
  { exists w. do 3 (split; [done|]). split; [by eexists|].
    intros ds1 dk ds2 Heq. by destruct ds1. }
  simpl in Hds.
  apply andb_prop in Hds as [Hds Hrest].
  apply andb_prop in Hds as [Hds Hmod]. simpl in Hmod.
  apply andb_prop in Hds as [Hd Hi].
  assert (Hm : mMoving (this w) = true) by (by destruct Hinv as (_ & ? & _)).
  assert (Ht : mTarget w = tgt) by (by destruct Hinv as (? & _)).
  destruct (updateCursor_drag_moving (f_host d) (f_camera d) (f_cursor d) w
              Hd Hm Hi) as (w1 & Hs & _ & _ & _ & _ & _ & _ & Hbr);
    [by rewrite Ht|].
  rewrite Hmod in Hbr. destruct Hbr as (Hr1 & r & Hr0 & Hp).
  destruct (step_drag tgt bv bc d w Hd Hok Hinv) as (w1' & Hs' & Hinv1).
  rewrite Hr in Hr0, Hr1. injection Hr0 as <-.
  unfold step in Hs', Hrest. rewrite Hs in Hs', Hrest.
  injection Hs' as ->.
  assert (Hc1 : exists c1, pushed (mProject w1') = base ++ [c1]).
  { rewrite Hp, Hc. exists (modifyValue (clampCenter (dragLocalCenter (f_cursor d) w)) c).
    rewrite alter_app_r_alt by lia.
    by rewrite Nat.sub_diag. }
  destruct (IH w1' Hrest Hinv1 Hr1 Hc1) as (w' & Hrun & Hinv' & Hr' & Hc' & Hsplit).
  exists w'. split; [simpl; unfold step; by rewrite Hs|].
  do 3 (split; [done|]).
  intros ds1 dk ds2 Heq. destruct ds1 as [|d1 ds1]; simpl in Heq; simplify_eq.
  - exists w, w1'. do 4 (split; [done|]). done.
  - destruct (Hsplit ds1 dk ds2 eq_refl) as (wa & wb & Hra & Hrest').
    exists wa, wb. split; [simpl; unfold step; by rewrite Hs|done].
Qed.

(** C1: a gesture made of a grabbing press (focused, invertible world
    matrix), a first drag and the further drags [ds] (each reading an
    invertible world matrix, each after the first finding the retained
    command reported modifiable) and a release returns with exactly
    one command pushed: the stack is the stack before the gesture
    followed by one command.  Every drag after the first returns true,
    keeps the pointer to that command, and leaves a stack that differs
    from the one it found only by [modifyValue] applied to that
    command. *)
Theorem gesture_pushes_one_command
    (p d rel : Frame) (ds : list Frame) (w : World) :
  assertsHold (mTarget w) = true ->
  gestureOk p (d :: ds) w = true ->
  isRelease (f_cursor rel) = true ->
  exists w',
    run (p :: d :: ds ++ [rel]) w = Some w'
    /\ length (pushed (mProject w')) = S (length (pushed (mProject w)))
    /\ (exists c, pushed (mProject w') = pushed (mProject w) ++ [c])
    /\ forall ds1 dk ds2,
        ds = ds1 ++ dk :: ds2 ->
        exists wa wb,
          run (p :: d :: ds1) w = Some wa
          /\ step dk wa = Some (true, wb)
          /\ mCommandRef (this wa) = Some (length (pushed (mProject w)))
          /\ mCommandRef (this wb) = Some (length (pushed (mProject w)))
          /\ length (pushed (mProject wb)) = length (pushed (mProject wa))
          /\ pushed (mProject wb)
             = alter (modifyValue (clampCenter (dragLocalCenter (f_cursor dk) wa)))
                 (length (pushed (mProject w))) (pushed (mProject wa)).
Proof.
  intros Hok Hg Hrel. unfold gestureOk in Hg.
  apply andb_prop in Hg as [Hg Hds].
  pose proof (step_grab p w Hg) as Hp.
  pose proof (grab_gestureInv p w) as Hinv0.
  set (bv := vec_sub (getWorldCentroidPos w) (worldPos (f_cursor p))) in *.
  set (wp := set_this _ w) in *.
  rewrite Hp in Hds. simpl in Hds.
  apply andb_prop in Hds as [Hds Hrest].
  apply andb_prop in Hds as [Hds _].
  apply andb_prop in Hds as [Hd Hi].
  destruct (updateCursor_drag_moving (f_host d) (f_camera d) (f_cursor d) wp
              Hd eq_refl Hi Hok) as (w1 & Hs & _ & _ & _ & _ & _ & _ & Hbr).
  change (refModifiable (f_host d) wp) with false in Hbr.
  destruct Hbr as [Hr1 Hp1].
  destruct (step_drag _ _ _ d wp Hd Hok Hinv0) as (w1' & Hs' & Hinv1).
  unfold step in Hs', Hrest. rewrite Hs in Hs', Hrest. simplify_eq.
  destruct (run_later_drags _ _ _ (pushed (mProject w)) ds w1' Hok Hrest Hinv1 Hr1)
    as (wn & Hrun & Hinvn & Hrn & [c Hc] & Hsplit); [by eexists|].
  destruct (step_release rel wn Hrel) as (w' & Hsr & Hpr & _).
  exists w'. split.
  { change (p :: d :: ds ++ [rel]) with ([p; d] ++ ds ++ [rel]).
    rewrite run_app. simpl. rewrite Hp. unfold step at 1. rewrite Hs.
    rewrite run_app, Hrun. simpl. by rewrite Hsr. }
  rewrite Hpr, Hc. split; [rewrite length_app; simpl; lia|].
  split; [by eexists|].
  intros ds1 dk ds2 Heq.
  destruct (Hsplit ds1 dk ds2 Heq) as (wa & wb & Hra & Hsk & Hrefa & Hrefb & Hpk).
  exists wa, wb. split.
  { change (p :: d :: ds1) with ([p; d] ++ ds1).
    rewrite run_app. simpl. rewrite Hp. unfold step at 1. by rewrite Hs. }
  do 3 (split; [done|]). split; [|done].
  by rewrite Hpk, length_alter.
Qed.

End Gestures.

(** ** The theorems on the integer grid *)

Section OnTheGrid.
Import Grid.

Lemma gesture_pushes_one_command_witness :
  gestureOk (press 103 54) [drag yes 110 60; drag yes 5000 60; drag yes 90 40] world0
  = true
  /\ exists w',
      run [press 103 54; drag yes 110 60; drag yes 5000 60; drag yes 90 40;
           release 90 40] world0 = Some w'
      /\ length (pushed (mProject w')) = 1%nat.
Proof.
  split; [vm_compute; reflexivity|].
  destruct (gesture_pushes_one_command (press 103 54) (drag yes 110 60)
              (release 90 40) [drag yes 5000 60; drag yes 90 40] world0)
    as (w' & Hrun & Hlen & _);
    [vm_compute; reflexivity | vm_compute; reflexivity | reflexivity |].
  exists w'. split; [exact Hrun | exact Hlen].
Defined.

Lemma stale_command_starts_new_one_witness :
  mCommandRef (this worldRetaining) = Some 0%nat
  /\ refModifiable yes worldRetaining = true
  /\ refModifiable no worldRetaining = false
  /\ exists w',
      updateCursor no 1 (cursorAt 110 60 false true false) worldRetaining
      = Some (true, w')
      /\ mCommandRef (this w') = Some 1%nat
      /\ pushed (mProject w') !! 0%nat = Some earlier
      /\ (cm_next <$> pushed (mProject w') !! 1%nat) = Some (mkVec2 107 56).
Proof.
  split; [reflexivity|]. split; [reflexivity|]. split; [reflexivity|].
  destruct (stale_command_starts_new_one no 1 (cursorAt 110 60 false true false)
              worldRetaining) as [_ Hdrag];
    [vm_compute; reflexivity | reflexivity |].
  destruct Hdrag as (w' & Hu & Hp & Hr); [reflexivity | reflexivity | reflexivity |].
  exists w'. split; [exact Hu|]. split; [exact Hr|].
  rewrite Hp. split; reflexivity.
Defined.

Lemma gesture_command_from_to_witness :
  gestureOk pressP [dragP1; dragP2] worldParent = true
  /\ lastDragInvertible [pressP; dragP1] worldParent = true
  /\ exists w' r c,
      run [pressP; dragP1; dragP2; releaseP] worldParent = Some w'
      /\ pushed (mProject w') !! r = Some c
      /\ cm_prev c = mkVec2 100 50
      /\ cm_next c = mkVec2 127 66.
Proof.
  split; [vm_compute; reflexivity|]. split; [vm_compute; reflexivity|].
  pose proof (gesture_command_from_to pressP dragP2 releaseP [dragP1] worldParent)
    as Hthm.
  cbv zeta in Hthm.
  destruct Hthm
    as (wk & wl & w' & r & c & Hk & _ & _ & Hrun & _ & Hc & _ & _ & _ & Hprev
        & Hnext & _);
    [vm_compute; reflexivity | vm_compute; reflexivity | reflexivity
    | reflexivity | vm_compute; reflexivity | reflexivity |].
  exists w', r, c.
  split; [exact Hrun|]. split; [exact Hc|]. split; [exact Hprev|].
  rewrite Hnext. pattern wk.
  match goal with
  | |- ?P wk => change (from_option P True (Some wk))
  end.
  rewrite <- Hk. vm_compute. reflexivity.
Defined.

(* The posture update moves the parent between the two drags: the last
   drag writes (127, 66), its cursor target mapped through the inverse
   it reads; the inverse of the press would give (117, 66). *)
Lemma press_time_inverse_counterexample :
  gestureOk pressP [dragP1; dragP2] worldParent = true
  /\ (cm_next <$> (run [pressP; dragP1; dragP2; releaseP] worldParent
                   ≫= fun w' => pushed (mProject w') !! 0%nat))
     = Some (mkVec2 127 66)
  /\ clampCenter
       (toVector2D
          (mat_map (fst (inverted (worldMtx worldParent)))
             (QVector3D_of_2D
                (vec_add (worldPos (f_cursor dragP2))
                   (vec_sub (getWorldCentroidPos worldParent)
                      (worldPos (f_cursor pressP)))))))
     = mkVec2 117 66
  /\ ~ (forall w' c,
          run [pressP; dragP1; dragP2; releaseP] worldParent = Some w' ->
          pushed (mProject w') !! 0%nat = Some c ->
          cm_next c
          = clampCenter
              (toVector2D
                 (mat_map (fst (inverted (worldMtx worldParent)))
                    (QVector3D_of_2D
                       (vec_add (worldPos (f_cursor dragP2))
                          (vec_sub (getWorldCentroidPos worldParent)
                             (worldPos (f_cursor pressP)))))))).
Proof.
  assert (Hcode : (cm_next <$> (run [pressP; dragP1; dragP2; releaseP] worldParent
                                ≫= fun w' => pushed (mProject w') !! 0%nat))
                  = Some (mkVec2 127 66)) by (vm_compute; reflexivity).
  assert (Hclaimed : clampCenter
       (toVector2D
          (mat_map (fst (inverted (worldMtx worldParent)))
             (QVector3D_of_2D
                (vec_add (worldPos (f_cursor dragP2))
                   (vec_sub (getWorldCentroidPos worldParent)
                      (worldPos (f_cursor pressP)))))))
     = mkVec2 117 66) by (vm_compute; reflexivity).
  split; [vm_compute; reflexivity|]. split; [exact Hcode|]. split; [exact Hclaimed|].
  intros Hclaim.
  destruct (run [pressP; dragP1; dragP2; releaseP] worldParent) as [w'|] eqn:Hrun;
    [|discriminate Hcode].
  simpl in Hcode.
  destruct (pushed (mProject w') !! 0%nat) as [c|] eqn:Hc; [|discriminate Hcode].
  simpl in Hcode. injection Hcode as Hcode.
  specialize (Hclaim w' c eq_refl Hc).
  rewrite Hclaimed, Hcode in Hclaim. discriminate Hclaim.
Qed.

Lemma event_target_counts_witness :
  (exists e', pushEventTarget folder TimeLineEvent_new = Some e'
              /\ length (ev_targets e') = 9%nat)
  /\ (exists e', pushEventTarget layer31 TimeLineEvent_new = Some e'
                 /\ length (ev_targets e') = 4%nat)
  /\ (exists e', pushEventTarget leaf3 TimeLineEvent_new = Some e'
                 /\ length (ev_targets e') = 3%nat).
Proof.
  destruct event_target_counts as [Hfolder Hleaf].
  split; [|split].
  - exact (Hfolder folder leaf3 layer31 _ _ _ TimeLineEvent_new
             eq_refl eq_refl eq_refl eq_refl eq_refl eq_refl eq_refl eq_refl).
  - destruct (Hleaf layer31 _ TimeLineEvent_new eq_refl eq_refl eq_refl)
      as (e' & He & Hn & _).
    exists e'. split; [exact He | exact Hn].
  - destruct (Hleaf leaf3 _ TimeLineEvent_new eq_refl eq_refl eq_refl)
      as (e' & He & _ & Hn).
    exists e'. split; [exact He | exact (Hn eq_refl)].
Defined.

(* A layer with three transform keys and one image key gets four
   targets, not three. *)
Lemma leaf_with_image_key_counterexample :
  (length <$> (ev_targets <$> pushEventTarget layer31 TimeLineEvent_new)) = Some 4%nat
  /\ ~ (forall (node : ObjectNode) (tl : TimeLine),
          canHoldChild node = false ->
          timeLine node = Some tl ->
          size (tl_map tl TimeKeyType_SRT) = 3%nat ->
          exists e',
            pushEventTarget node TimeLineEvent_new = Some e'
            /\ length (ev_targets e') = 3%nat).
Proof.
  assert (H4 : (length <$> (ev_targets <$> pushEventTarget layer31 TimeLineEvent_new))
               = Some 4%nat) by (vm_compute; reflexivity).
  split; [exact H4|].
  intros Hclaim.
  destruct (Hclaim layer31 _ eq_refl eq_refl eq_refl) as (e' & He & Hn).
  rewrite He in H4. simpl in H4. rewrite Hn in H4. discriminate H4.
Qed.

Lemma leaf_enumerates_image_keys_as_srt_witness :
  exists e',
    pushEventTarget layer31 TimeLineEvent_new = Some e'
    /\ tgt_type <$> ev_targets e'
       = [TimeKeyType_SRT; TimeKeyType_SRT; TimeKeyType_SRT; TimeKeyType_SRT]
    /\ tgt_frame <$> ev_targets e' = [0; 10; 20; 5].
Proof.
  destruct (leaf_enumerates_image_keys_as_srt layer31 _ TimeLineEvent_new
              eq_refl eq_refl) as (e' & He & _ & Ht & _).
  exists e'. split; [exact He|]. rewrite Ht. split; vm_compute; reflexivity.
Defined.


Lemma idle_calls_idempotent_witness :
  exists changed w1,
    updateCursor yes 1 (cursorAt 103 54 false false false) world0
    = Some (changed, w1)
    /\ calls [hover 103 54; hover 103 54; hover 103 54] w1
       = Some ([false; false; false], w1).
Proof.
  destruct (idle_calls_idempotent yes 1 (cursorAt 103 54 false false false)
              world0 eq_refl) as (changed & w1 & Hu & Hcalls).
  exists changed, w1. split; [exact Hu|]. exact (Hcalls [yes; yes; yes]).
Defined.

Lemma release_without_drag_pushes_nothing_witness :
  exists w',
    run [press 103 54; release 103 54] world0 = Some w'
    /\ pushed (mProject w') = []
    /\ mMoving (this w') = false.
Proof.
  destruct (release_without_drag_pushes_nothing yes 1
              (cursorAt 103 54 false false true) world0 eq_refl)
    as [_ Hpr].
  destruct (Hpr (press 103 54) eq_refl) as (w' & Hrun & Hp & _ & Hm & _).
  exists w'. split; [exact Hrun|]. split; [exact Hp | exact Hm].
Defined.

Lemma moving_cleared_only_by_release_witness :
  mMoving (this worldMoving) = true
  /\ focusTest 1 (cursorAt 900 900 false true false) worldMoving = false
  /\ exists changed w',
      updateCursor yes 1 (cursorAt 900 900 false true false) worldMoving
      = Some (changed, w')
      /\ mMoving (this w') = true.
Proof.
  split; [reflexivity|]. split; [vm_compute; reflexivity|].
  destruct (moving_cleared_only_by_release yes 1
              (cursorAt 900 900 false true false) worldMoving)
    as (changed & w' & Hu & _ & _ & Hm); [vm_compute; reflexivity | reflexivity |].
  exists changed, w'. split; [exact Hu|].
  apply Hm; [left; vm_compute; reflexivity | reflexivity].
Defined.

End OnTheGrid.

(** ** The clamp on IEEE values *)

Section OnIeee.
Import Ieee.

(* NaN is the value the order hypotheses of the clamp leave out. *)
Lemma nan_is_not_numberLike : numberLike transMin transMax nan = false.
Proof. reflexivity. Qed.


End OnIeee.

(** ** More on event targeting *)

Section EventTargetsMore.
Context `{Collaborators}.

Lemma elem_of_map_keys (m : gmap Z TimeKey) (k : Z) :
  k ∈ map_keys m <-> is_Some (m !! k).
Proof.
  unfold map_keys. rewrite (merge_sort_Permutation Z.le), list_elem_of_fmap.
  split.
  - intros ([k' x] & -> & Hin). apply elem_of_map_to_list in Hin. by eexists.
  - intros [x Hx]. exists (k, x). split; [done|]. by apply elem_of_map_to_list.
Qed.

Lemma NoDup_map_keys (m : gmap Z TimeKey) : NoDup (map_keys m).
Proof.
  unfold map_keys. rewrite (merge_sort_Permutation Z.le).
  apply NoDup_fst_map_to_list.
Qed.

Lemma pushKeys_eq node ty m e :
  pushKeys node ty m e
  = mkEvent (ev_type e) (ev_targets e ++ (mkTarget node ty <$> map_keys m)).
Proof.
  unfold pushKeys. generalize (map_keys m) as ks. intros ks. revert e.
  induction ks as [|k ks IH]; intros [ty0 ts]; simpl.
  - by rewrite app_nil_r.
  - rewrite IH. simpl. by rewrite <- app_assoc.
Qed.

Lemma pushChildren_Some cs e :
  forallb hasTimeLine cs = true ->
  pushChildren cs e
  = Some (mkEvent (ev_type e) (ev_targets e ++ concat (srtTargets <$> cs))).
Proof.
  revert e. induction cs as [|c cs IH]; intros e Hcs; simpl in *.
  - rewrite app_nil_r. by destruct e.
  - apply andb_prop in Hcs as [Hc Hcs].
    unfold srtTargets, srtKeys. unfold hasTimeLine in Hc.
    destruct (timeLine c) as [ctl|]; [|discriminate].
    rewrite IH by done. rewrite pushKeys_eq. simpl.
    by rewrite <- app_assoc.
Qed.

Lemma pushChildren_None cs e :
  forallb hasTimeLine cs = false -> pushChildren cs e = None.
Proof.
  revert e. induction cs as [|c cs IH]; intros e Hcs; simpl in *; [discriminate|].
  unfold hasTimeLine in Hcs at 1.
  destruct (timeLine c) as [ctl|]; [|done]. by apply IH.
Qed.

Lemma forallb_hasTimeLine_false cs :
  forallb hasTimeLine cs = false <-> exists c, c ∈ cs /\ timeLine c = None.
Proof.
  induction cs as [|c cs IH]; simpl.
  - split; [discriminate|]. intros (c & Hc & _). by apply elem_of_nil in Hc.
  - rewrite andb_false_iff, IH. unfold hasTimeLine. split.
    + intros [Hc|(c' & Hin & Hc')].
      * exists c. split; [left|]. by destruct (timeLine c).
      * exists c'. split; [by right | done].
    + intros (c' & Hin & Hc'). apply elem_of_cons in Hin as [->|Hin].
      * left. by rewrite Hc'.
      * right. eauto.
Qed.

Lemma length_srtTargets n : length (srtTargets n) = srtCount n.
Proof.
  unfold srtTargets, srtKeys, srtCount. rewrite length_fmap.
  destruct (timeLine n); [apply length_map_keys | done].
Qed.

Lemma length_concat_srtTargets cs :
  length (concat (srtTargets <$> cs)) = sum_list (srtCount <$> cs).
Proof.
  induction cs as [|c cs IH]; [done|].
  rewrite !fmap_cons. cbn [concat]. rewrite length_app, IH, length_srtTargets.
  reflexivity.
Qed.

(** X1: the enumeration aborts exactly when the node has no timeline,
    or it can hold children and one of its direct children has no
    timeline; the children of a node that cannot hold children are
    never inspected. *)
Theorem pushEventTarget_fails_iff (n : ObjectNode) (e : TimeLineEvent) :
  pushEventTarget n e = None
  <-> timeLine n = None
      \/ (canHoldChild n = true /\ exists c, c ∈ children n /\ timeLine c = None).
Proof.
  unfold pushEventTarget.
  destruct (timeLine n) as [tl|]; [|by split; [left|]].
  destruct (canHoldChild n).
  - rewrite <- forallb_hasTimeLine_false. split.
    + intros Hp. right. split; [done|].
      destruct (forallb hasTimeLine (children n)) eqn:Hall; [|done].
      by rewrite pushChildren_Some in Hp.
    + intros [?|[_ Hall]]; [done|]. by apply pushChildren_None.
  - split; [done|]. by intros [?|[? _]].
Qed.

(** X2: on a node that can hold children and whose timelines are all
    present, the enumeration keeps the event's type and the targets
    already there, and appends the node's transform keys in ascending
    frame order followed by each direct child's transform keys, child
    after child; it adds as many targets as these nodes have transform
    keys. Image keys and the children's own children add nothing. *)
Theorem folder_targets (n : ObjectNode) (e : TimeLineEvent) :
  canHoldChild n = true ->
  hasTimeLine n = true ->
  forallb hasTimeLine (children n) = true ->
  exists e',
    pushEventTarget n e = Some e'
    /\ ev_type e' = ev_type e
    /\ ev_targets e'
       = ev_targets e ++ srtTargets n ++ concat (srtTargets <$> children n)
    /\ Sorted Z.le (srtKeys n)
    /\ length (ev_targets e')
       = (length (ev_targets e) + srtCount n + sum_list (srtCount <$> children n))%nat.
Proof.
  intros Hc Htl Hcs. unfold pushEventTarget.
  pose proof (length_srtTargets n) as Hlen.
  unfold srtTargets, srtKeys in *. unfold hasTimeLine in Htl.
  destruct (timeLine n) as [tl|] eqn:Hn; [|discriminate].
  rewrite Hc, pushChildren_Some, pushKeys_eq by done. simpl.
  eexists. split; [reflexivity|]. simpl.
  split; [done|]. split; [by rewrite <- app_assoc|].
  split; [apply map_keys_sorted|].
  rewrite !length_app, Hlen, length_concat_srtTargets. lia.
Qed.

(** X3: whatever the node, a successful enumeration only appends, and
    every target it appends is tagged with the transform-key kind and
    names the node itself or one of its direct children. *)
Theorem targets_are_srt_of_node_or_child
    (n : ObjectNode) (e e' : TimeLineEvent) :
  pushEventTarget n e = Some e' ->
  ev_type e' = ev_type e
  /\ exists added,
      ev_targets e' = ev_targets e ++ added
      /\ Forall (fun t => tgt_type t = TimeKeyType_SRT) added
      /\ Forall (fun t => tgt_node t = n \/ tgt_node t ∈ children n) added.
Proof.
  unfold pushEventTarget.
  destruct (timeLine n) as [tl|]; [|discriminate].
  destruct (canHoldChild n).
  - destruct (forallb hasTimeLine (children n)) eqn:Hall.
    + rewrite pushChildren_Some, pushKeys_eq by done. intros [= <-]. simpl.
      split; [done|]. eexists. split; [by rewrite <- app_assoc|].
      split; apply Forall_app; split.
      * by apply Forall_fmap, Forall_true.
      * apply Forall_concat, Forall_fmap, Forall_true. intros c.
        by apply Forall_fmap, Forall_true.
      * apply Forall_fmap, Forall_true. by left.
      * apply Forall_concat, Forall_fmap, Forall_forall. intros c Hc.
        apply Forall_fmap, Forall_true. intros k. by right.
    + by rewrite pushChildren_None.
  - rewrite !pushKeys_eq. intros [= <-]. simpl.
    split; [done|]. eexists. split; [by rewrite <- app_assoc|].
    split; apply Forall_app; split; apply Forall_fmap, Forall_true; by try left.
Qed.

(** X4: on a node that cannot hold children, a frame is targeted once
    for its transform key and once more for its image key, under the
    same triple: the appended targets are free of duplicates exactly
    when no frame carries both a transform key and an image key. *)
Theorem leaf_targets_duplicate_free_iff
    (n : ObjectNode) (tl : TimeLine) (e : TimeLineEvent) :
  canHoldChild n = false ->
  timeLine n = Some tl ->
  exists added,
    pushEventTarget n e
    = Some (mkEvent (ev_type e) (ev_targets e ++ added))
    /\ (forall t, t ∈ added <->
          tgt_node t = n /\ tgt_type t = TimeKeyType_SRT
          /\ (is_Some (tl_map tl TimeKeyType_SRT !! tgt_frame t)
              \/ is_Some (tl_map tl TimeKeyType_Image !! tgt_frame t)))
    /\ (NoDup added <->
          forall k, ~ (is_Some (tl_map tl TimeKeyType_SRT !! k)
                       /\ is_Some (tl_map tl TimeKeyType_Image !! k))).
Proof.
  intros Hc Htl.
  exists ((mkTarget n TimeKeyType_SRT <$> map_keys (tl_map tl TimeKeyType_SRT))
          ++ (mkTarget n TimeKeyType_SRT <$> map_keys (tl_map tl TimeKeyType_Image))).
  split.
  { rewrite (pushEventTarget_leaf n tl e Hc Htl), !pushKeys_eq. simpl.
    by rewrite <- app_assoc. }
  assert (Hin : forall m t,
    t ∈ mkTarget n TimeKeyType_SRT <$> map_keys m
    <-> tgt_node t = n /\ tgt_type t = TimeKeyType_SRT /\ is_Some (m !! tgt_frame t)).
  { intros m t. rewrite list_elem_of_fmap. split.
    - intros (k & -> & Hk). simpl. by rewrite <- elem_of_map_keys.
    - intros (Hn & Hty & Hk). exists (tgt_frame t).
      split; [destruct t; simpl in *; by subst | by apply elem_of_map_keys]. }
  assert (Hinj : Inj (=) (=) (mkTarget n TimeKeyType_SRT)) by (intros ?? [=]; done).
  split.
  - intros t. rewrite elem_of_app, !Hin. tauto.
  - rewrite NoDup_app. split.
    + intros (_ & Hdis & _) k [Hs Hi].
      apply (Hdis (mkTarget n TimeKeyType_SRT k)); apply Hin; by simpl.
    + intros Hdis. repeat split.
      * apply (NoDup_fmap_2 _), NoDup_map_keys.
      * intros t Hs Hi. apply Hin in Hs as (_ & _ & Hs).
        apply Hin in Hi as (_ & _ & Hi). by apply (Hdis (tgt_frame t)).
      * apply (NoDup_fmap_2 _), NoDup_map_keys.
Qed.

End EventTargetsMore.

(** ** More on one call *)

Section CallsMore.
Context `{Collaborators}.

(* What one call does to [mMoving], the target and the stack. *)
Lemma call_summary host cam cur w :
  assertsHold (mTarget w) = true ->
  exists changed w',
    updateCursor host cam cur w = Some (changed, w')
    /\ mTarget w' = mTarget w
    /\ mMoving (this w')
       = negb (isRelease cur)
         && (mMoving (this w) || (isPress cur && focusTest cam cur w && hasWorldInv w))
    /\ (pushed (mProject w') = pushed (mProject w)
        \/ (isDrag cur = true
            /\ mCommandRef (this w') = Some (length (pushed (mProject w)))
            /\ exists c, pushed (mProject w') = pushed (mProject w) ++ [c])
        \/ (isDrag cur = true
            /\ mCommandRef (this w') = mCommandRef (this w)
            /\ exists r v,
                mCommandRef (this w) = Some r
                /\ isModifiable host r = true
                /\ pushed (mProject w')
                   = alter (modifyValue v) r (pushed (mProject w))))
    /\ (pushed (mProject w') = pushed (mProject w) ->
        mCommandRef (this w') = mCommandRef (this w)
        \/ mCommandRef (this w') = None).
Proof.
  intros Hok.
  destruct (cursor_cases cur) as [Hc|[Hc|[Hc|Hc]]].
  - rewrite (updateCursor_press _ _ _ _ Hc). eexists _, _.
    split; [reflexivity|].
    assert (Hr : isRelease cur = false).
    { unfold isRelease. unfold isPress in Hc. by rewrite Hc. }
    rewrite Hr, Hc. simpl.
    destruct (focusTest cam cur w && hasWorldInv w); simpl;
      rewrite ?orb_true_r, ?orb_false_r; auto 10.
  - assert (Hr : isRelease cur = false).
    { unfold isRelease, isDrag in *.
      by destruct (emitsLeftPressedEvent cur), (emitsLeftDraggedEvent cur). }
    assert (Hp : isPress cur = false).
    { unfold isPress, isDrag in *. by destruct (emitsLeftPressedEvent cur). }
    rewrite Hr, Hp. simpl. rewrite orb_false_r.
    destruct (mMoving (this w) && hasWorldInv w) eqn:Hmi.
    + apply andb_prop in Hmi as [Hm Hi].
      destruct (updateCursor_drag_moving host cam cur w Hc Hm Hi Hok)
        as (w' & -> & Ht & _ & _ & Hm' & _ & _ & Hbr).
      exists true, w'. split; [done|]. split; [done|].
      split; [by rewrite Hm', Hm|].
      destruct (refModifiable host w) eqn:Hmod.
      * destruct Hbr as (Hr' & r & Hr0 & Hp').
        unfold refModifiable in Hmod. rewrite Hr0 in Hmod.
        split; [right; right; eauto 10 | auto].
      * destruct Hbr as (Hr' & Hp').
        split; [right; left; eauto | ].
        intros Heq. rewrite Hp' in Heq.
        apply (f_equal length) in Heq. rewrite length_app in Heq.
        simpl in Heq. lia.
    + rewrite (updateCursor_drag_skip _ _ _ _ Hc Hmi). eexists _, _.
      split; [reflexivity|]. simpl. auto 10.
  - rewrite (updateCursor_release _ _ _ _ Hc), Hc. eexists _, _.
    split; [reflexivity|]. simpl. auto 10.
  - assert (Hr : isRelease cur = false).
    { unfold isRelease, isIdle in *.
      by destruct (emitsLeftPressedEvent cur), (emitsLeftDraggedEvent cur),
        (emitsLeftReleasedEvent cur). }
    assert (Hp : isPress cur = false).
    { unfold isPress, isIdle in *. by destruct (emitsLeftPressedEvent cur). }
    rewrite (updateCursor_idle _ _ _ _ Hc), Hr, Hp. eexists _, _.
    split; [reflexivity|]. simpl. rewrite orb_false_r. auto 10.
Qed.

(** X5: a call that returns false has changed nothing at all, carried
    no press, drag or release, and found the focus as it was; a call
    without event that finds the focus toggled returns true and writes
    the new focus. *)
Theorem false_return_means_untouched
    (host : Host) (cam : CameraInfo) (cur : AbstractCursor) (w : World) :
  (forall w', updateCursor host cam cur w = Some (false, w') ->
     w' = w /\ isIdle cur = true /\ focusTest cam cur w = mFocusing (this w))
  /\ (isIdle cur = true ->
      focusTest cam cur w = negb (mFocusing (this w)) ->
      updateCursor host cam cur w
      = Some (true, set_this (set_mFocusing (negb (mFocusing (this w))) (this w)) w)).
Proof.
  split.
  - intros w' Hu.
    destruct (cursor_cases cur) as [Hc|[Hc|[Hc|Hc]]].
    + by rewrite (updateCursor_press _ _ _ _ Hc) in Hu.
    + destruct (mMoving (this w) && hasWorldInv w) eqn:Hmi.
      * apply andb_prop in Hmi as [Hm Hi].
        rewrite (updateCursor_drag_move _ _ _ _ Hc Hm Hi) in Hu.
        by destruct (moveCentroid _ _ _).
      * by rewrite (updateCursor_drag_skip _ _ _ _ Hc Hmi) in Hu.
    + by rewrite (updateCursor_release _ _ _ _ Hc) in Hu.
    + rewrite (updateCursor_idle _ _ _ _ Hc) in Hu.
      injection Hu as Hf <-.
      apply negb_false_iff, Bool.eqb_prop in Hf.
      split; [|by split].
      rewrite <- Hf. by destruct w as [[] ? ? ?].
  - intros Hc Hf. rewrite (updateCursor_idle _ _ _ _ Hc), Hf.
    by destruct (mFocusing (this w)).
Qed.

(** X6: the events are tested in the order press, drag, release: a
    cursor that emits a press is handled as one that emits only the
    press, and one that emits a drag and no press as one that emits only
    the drag. *)
Theorem press_then_drag_then_release_precedence
    (host : Host) (cam : CameraInfo) (cur : AbstractCursor) (w : World) :
  (emitsLeftPressedEvent cur = true ->
   updateCursor host cam cur w
   = updateCursor host cam (mkCursor (worldPos cur) true false false) w)
  /\ (emitsLeftPressedEvent cur = false ->
      emitsLeftDraggedEvent cur = true ->
      updateCursor host cam cur w
      = updateCursor host cam (mkCursor (worldPos cur) false true false) w).
Proof.
  destruct cur as [pos p d r]. unfold updateCursor, focusTest. simpl.
  split; [by intros -> | by intros -> ->].
Qed.

(** X7: only a drag that finds the manipulator moving and the world
    matrix invertible reaches the project or the key owner.  Every other
    call returns, also on a target without timeline, and leaves the
    project (stack, macros, notifications), the key owner and the target
    as they were. *)
Theorem only_moving_drag_edits
    (host : Host) (cam : CameraInfo) (cur : AbstractCursor) (w : World) :
  isDrag cur && mMoving (this w) && hasWorldInv w = false ->
  exists changed w',
    updateCursor host cam cur w = Some (changed, w')
    /\ mProject w' = mProject w
    /\ mKeyOwner w' = mKeyOwner w
    /\ mTarget w' = mTarget w.
Proof.
  intros Hno.
  destruct (cursor_cases cur) as [Hc|[Hc|[Hc|Hc]]].
  - rewrite (updateCursor_press _ _ _ _ Hc). eexists _, _.
    split; [reflexivity|].
    by destruct (focusTest cam cur w && hasWorldInv w).
  - rewrite Hc in Hno. simpl in Hno.
    rewrite (updateCursor_drag_skip _ _ _ _ Hc Hno). by eexists _, _.
  - rewrite (updateCursor_release _ _ _ _ Hc). by eexists _, _.
  - rewrite (updateCursor_idle _ _ _ _ Hc). by eexists _, _.
Qed.

(** X8: after a call [mMoving] is false if the call carried a release,
    and otherwise true exactly when it was true before or the call is a
    press that finds the cursor in focus and the world matrix
    invertible; so the manipulator starts moving only by such a
    press. *)
Theorem moving_starts_only_by_focused_press
    (host : Host) (cam : CameraInfo) (cur : AbstractCursor) (w : World) :
  assertsHold (mTarget w) = true ->
  exists changed w',
    updateCursor host cam cur w = Some (changed, w')
    /\ mMoving (this w')
       = negb (isRelease cur)
         && (mMoving (this w) || (isPress cur && focusTest cam cur w && hasWorldInv w))
    /\ (mMoving (this w) = false -> mMoving (this w') = true ->
        isPress cur = true /\ focusTest cam cur w = true /\ hasWorldInv w = true).
Proof.
  intros Hok.
  destruct (call_summary host cam cur w Hok) as (changed & w' & Hu & _ & Hm & _).
  exists changed, w'. split; [done|]. split; [done|].
  intros Hm0 Hm1. rewrite Hm0, Hm1 in Hm. simpl in Hm.
  symmetry in Hm. apply andb_prop in Hm as [_ Hm].
  apply andb_prop in Hm as [Hm Hi]. by apply andb_prop in Hm as [Hp Hf].
Qed.

(** X9: a call never removes or reorders a command, pushes at most one,
    and rewrites none but the retained one, and that one only in a drag
    for which the stack reports it modifiable, keeping its target and
    its first value. *)
Theorem call_rewrites_only_retained_command
    (host : Host) (cam : CameraInfo) (cur : AbstractCursor) (w : World) :
  assertsHold (mTarget w) = true ->
  exists changed w',
    updateCursor host cam cur w = Some (changed, w')
    /\ (length (pushed (mProject w)) <= length (pushed (mProject w'))
        <= S (length (pushed (mProject w))))%nat
    /\ forall i c,
        pushed (mProject w) !! i = Some c ->
        pushed (mProject w') !! i = Some c
        \/ (mCommandRef (this w) = Some i
            /\ isModifiable host i = true
            /\ isDrag cur = true
            /\ exists v, pushed (mProject w') !! i
                         = Some (mkCentroidMover (cm_target c) (cm_prev c) v)).
Proof.
  intros Hok.
  destruct (call_summary host cam cur w Hok)
    as (changed & w' & Hu & _ & _ & Hst & _).
  exists changed, w'. split; [done|].
  destruct Hst as [Heq|[(Hd & _ & c0 & Heq)|(Hd & _ & r & v & Hr & Hmod & Heq)]];
    rewrite Heq.
  - split; [lia|]. auto.
  - rewrite length_app. simpl. split; [lia|].
    intros i c Hi. left. by apply lookup_app_l_Some.
  - rewrite length_alter. split; [lia|].
    intros i c Hi. destruct (decide (i = r)) as [->|Hne].
    + right. do 3 (split; [done|]). exists v.
      by rewrite list_lookup_alter_eq, Hi.
    + left. by rewrite list_lookup_alter_ne.
Qed.

End CallsMore.

(** ** More on runs of calls *)

Section RunsMore.
Context `{Collaborators}.

Lemma dragCount_cons f fs :
  dragCount (f :: fs)
  = ((if isDrag (f_cursor f) then 1 else 0) + dragCount fs)%nat.
Proof.
  unfold dragCount. rewrite filter_cons.
  destruct (decide (isDrag (f_cursor f) = true)) as [->|Hn]; [done|].
  by destruct (isDrag (f_cursor f)).
Qed.

(* One call, seen from the undo history. *)
Lemma call_history host cam cur w :
  assertsHold (mTarget w) = true ->
  exists changed w',
    updateCursor host cam cur w = Some (changed, w')
    /\ mTarget w' = mTarget w
    /\ (length (pushed (mProject w)) <= length (pushed (mProject w')))%nat
    /\ (length (pushed (mProject w'))
        <= length (pushed (mProject w)) + (if isDrag cur then 1 else 0))%nat
    /\ (forall i c,
          pushed (mProject w) !! i = Some c ->
          exists c',
            pushed (mProject w') !! i = Some c'
            /\ cm_target c' = cm_target c /\ cm_prev c' = cm_prev c)
    /\ (refValid w = true -> refValid w' = true).
Proof.
  intros Hok.
  destruct (call_summary host cam cur w Hok)
    as (changed & w' & Hu & Ht & _ & Hst & Href).
  exists changed, w'. split; [done|]. split; [done|].
  destruct Hst as [Heq|[(Hd & Hr' & c0 & Heq)|(Hd & Hr' & r & v & Hr & Hmod & Heq)]].
  - rewrite Heq. split; [lia|]. split; [lia|]. split; [eauto|].
    unfold refValid. rewrite Heq.
    destruct (Href Heq) as [-> | ->]; done.
  - rewrite Heq, length_app, Hd. simpl. split; [lia|]. split; [lia|]. split.
    + intros i c Hi. exists c. split; [by apply lookup_app_l_Some | done].
    + intros _. unfold refValid. rewrite Hr', Heq, length_app. simpl.
      apply bool_decide_eq_true. lia.
  - rewrite Heq, length_alter, Hd. split; [lia|]. split; [lia|]. split.
    + intros i c Hi. destruct (decide (i = r)) as [->|Hne].
      * exists (modifyValue v c). by rewrite list_lookup_alter_eq, Hi.
      * exists c. by rewrite list_lookup_alter_ne.
    + unfold refValid. by rewrite Hr', Heq, length_alter.
Qed.

Lemma run_history fs w :
  assertsHold (mTarget w) = true ->
  exists w',
    run fs w = Some w'
    /\ mTarget w' = mTarget w
    /\ (length (pushed (mProject w)) <= length (pushed (mProject w')))%nat
    /\ (length (pushed (mProject w'))
        <= length (pushed (mProject w)) + dragCount fs)%nat
    /\ (forall i c,
          pushed (mProject w) !! i = Some c ->
          exists c',
            pushed (mProject w') !! i = Some c'
            /\ cm_target c' = cm_target c /\ cm_prev c' = cm_prev c)
    /\ (refValid w = true -> refValid w' = true).
Proof.
  revert w. induction fs as [|f fs IH]; intros w Hok.
  { exists w. simpl. repeat split; eauto with lia. }
  destruct (call_history (f_host f) (f_camera f) (f_cursor f) w Hok)
    as (changed & w1 & Hu & Ht & Hle & Hub & Hkeep & Hval).
  destruct (IH w1) as (w' & Hrun & Ht' & Hle' & Hub' & Hkeep' & Hval');
    [by rewrite Ht|].
  exists w'. simpl. unfold step. rewrite Hu.
  split; [done|]. split; [congruence|]. split; [lia|].
  split; [rewrite dragCount_cons; lia|]. split; [|auto].
  intros i c Hi. destruct (Hkeep i c Hi) as (c1 & Hi1 & Ht1 & Hp1).
  destruct (Hkeep' i c1 Hi1) as (c' & Hi' & Ht2 & Hp2).
  exists c'. split; [done|]. split; congruence.
Qed.

(** X10: with the timelines of the target and its children present,
    every sequence of calls returns; it never removes or reorders a
    command, pushes at most one command per drag frame, and leaves the
    target and the first value of every command that was on the stack
    as they were: merging rewrites second values only. *)
Theorem run_keeps_undo_history (fs : list Frame) (w : World) :
  assertsHold (mTarget w) = true ->
  exists w',
    run fs w = Some w'
    /\ mTarget w' = mTarget w
    /\ (length (pushed (mProject w)) <= length (pushed (mProject w'))
        <= length (pushed (mProject w)) + dragCount fs)%nat
    /\ forall i c,
        pushed (mProject w) !! i = Some c ->
        exists c',
          pushed (mProject w') !! i = Some c'
          /\ cm_target c' = cm_target c /\ cm_prev c' = cm_prev c.
Proof.
  intros Hok.
  destruct (run_history fs w Hok) as (w' & Hrun & Ht & Hle & Hub & Hkeep & _).
  exists w'. auto.
Qed.


Lemma call_without_grab host cam cur w :
  mMoving (this w) = false ->
  isPress cur = false ->
  exists changed w',
    updateCursor host cam cur w = Some (changed, w')
    /\ mProject w' = mProject w
    /\ mKeyOwner w' = mKeyOwner w
    /\ mTarget w' = mTarget w
    /\ mMoving (this w') = false.
Proof.
  intros Hm Hp.
  destruct (cursor_cases cur) as [Hc|[Hc|[Hc|Hc]]].
  - congruence.
  - rewrite (updateCursor_drag_skip _ _ _ _ Hc) by (by rewrite Hm).
    by eexists _, _.
  - rewrite (updateCursor_release _ _ _ _ Hc). by eexists _, _.
  - rewrite (updateCursor_idle _ _ _ _ Hc). by eexists _, _.
Qed.

(** X12: from a manipulator that is not moving, a sequence of calls
    none of which carries a press (drags, releases, plain moves) always
    returns and leaves the project, the key owner and the target as
    they were, and the manipulator not moving: dragging without having
    grabbed the handle edits nothing. *)
Theorem no_press_no_edit (fs : list Frame) (w : World) :
  mMoving (this w) = false ->
  noPress fs = true ->
  exists w',
    run fs w = Some w'
    /\ mProject w' = mProject w
    /\ mKeyOwner w' = mKeyOwner w
    /\ mTarget w' = mTarget w
    /\ mMoving (this w') = false.
Proof.
  revert w. induction fs as [|f fs IH]; intros w Hm Hfs; [by exists w|].
  simpl in Hfs. apply andb_prop in Hfs as [Hf Hfs].
  apply negb_true_iff in Hf.
  destruct (call_without_grab (f_host f) (f_camera f) (f_cursor f) w Hm Hf)
    as (changed & w1 & Hu & Hp & Hk & Ht & Hm1).
  destruct (IH w1 Hm1 Hfs) as (w' & Hrun & Hp' & Hk' & Ht' & Hm').
  exists w'. simpl. unfold step. rewrite Hu.
  split; [done|]. repeat split; congruence.
Qed.

(** X13: a press that grabs the handle drops the retained command: the
    drag after it, reading an invertible world matrix, pushes a new
    command from the press-time local position to the clamped local
    position of the drag, whatever command was retained before the
    press and even if the stack reports it modifiable. *)
Theorem grab_starts_new_command (p d : Frame) (w : World) :
  assertsHold (mTarget w) = true ->
  grabs p w = true ->
  isDrag (f_cursor d) = true ->
  exists w',
    run [p; d] w = Some w'
    /\ mCommandRef (this w') = Some (length (pushed (mProject w)))
    /\ pushed (mProject w')
       = pushed (mProject w)
         ++ [mkCentroidMover (mTarget w) (pressLocalCenter w)
               (clampCenter
                  (toVector2D
                     (mat_map (worldInvMtx w)
                        (QVector3D_of_2D
                           (vec_add (worldPos (f_cursor d))
                              (vec_sub (getWorldCentroidPos w)
                                 (worldPos (f_cursor p)))))))) ].
Proof.
  intros Hok Hg Hd.
  pose proof (step_grab p w Hg) as Hp.
  set (wp := set_this _ w) in *.
  assert (Hi : hasWorldInv wp = true).
  { unfold grabs in Hg. by apply andb_prop in Hg as [_ Hi]. }
  destruct (updateCursor_drag_moving (f_host d) (f_camera d) (f_cursor d) wp
              Hd eq_refl Hi Hok) as (w' & Hs & _ & _ & _ & _ & _ & _ & Hbr).
  change (refModifiable (f_host d) wp) with false in Hbr.
  destruct Hbr as [Hr Hpush].
  exists w'. simpl. rewrite Hp. unfold step. rewrite Hs. by split.
Qed.

End RunsMore.

(** ** Notifications and rendering *)

Section Notifications.
Context `{Collaborators}.

(* What a drag that modifies the retained command leaves of the project. *)
Lemma drag_modify_project host cam cur w r :
  isDrag cur = true ->
  mMoving (this w) = true ->
  hasWorldInv w = true ->
  assertsHold (mTarget w) = true ->
  mCommandRef (this w) = Some r ->
  isModifiable host r = true ->
  exists ev w',
    pushEventTarget (mTarget w) changeKeyValueEvent = Some ev
    /\ updateCursor host cam cur w = Some (true, w')
    /\ macros (mProject w') = macros (mProject w)
    /\ notified (mProject w')
       = notified (mProject w)
         ++ [onTimeLineModified ev false;
             onNodeAttributeModified (mTarget w) false].
Proof.
  intros Hd Hm Hi Hok Hr Hmod.
  rewrite (updateCursor_drag_move host cam cur w Hd Hm Hi).
  set (w1 := set_this (set_mFocusing (focusTest cam cur w) (this w)) w).
  destruct (pushEventTarget_total (mTarget w) changeKeyValueEvent Hok) as [ev Hev].
  exists ev.
  assert (Hmv : moveCentroid host (dragLocalCenter cur w) w1
    = Some (set_project
              (mkProject
                 (alter (modifyValue (clampCenter (dragLocalCenter cur w))) r
                    (pushed (mProject w)))
                 (macros (mProject w))
                 (notified (mProject w)
                  ++ [onTimeLineModified ev false;
                      onNodeAttributeModified (mTarget w) false]))
              w1)).
  { unfold moveCentroid. subst w1. simpl.
    unfold assertsHold, hasTimeLine in Hok.
    destruct (timeLine (mTarget w)); [|discriminate].
    rewrite Hr, Hmod. unfold modifyCommand. simpl.
    fold changeKeyValueEvent. by rewrite Hev. }
  rewrite Hmv. eexists. split; [done|]. split; [reflexivity|]. by simpl.
Qed.

(* What a drag that creates a command leaves of the project. *)
Lemma drag_create_project host cam cur w :
  isDrag cur = true ->
  mMoving (this w) = true ->
  hasWorldInv w = true ->
  assertsHold (mTarget w) = true ->
  refModifiable host w = false ->
  exists ev w',
    pushEventTarget (mTarget w) changeKeyValueEvent = Some ev
    /\ updateCursor host cam cur w = Some (true, w')
    /\ macros (mProject w')
       = macros (mProject w)
         ++ [mkMacro "move centroid"
               [TimeLineNotifier ev; AttributeNotifier (mTarget w)]]
    /\ notified (mProject w') = notified (mProject w).
Proof.
  intros Hd Hm Hi Hok Hmod.
  rewrite (updateCursor_drag_move host cam cur w Hd Hm Hi).
  set (w1 := set_this (set_mFocusing (focusTest cam cur w) (this w)) w).
  destruct (pushEventTarget_total (mTarget w) changeKeyValueEvent Hok) as [ev Hev].
  exists ev.
  assert (Hcr : createCommand (clampCenter (dragLocalCenter cur w)) w1
    = Some (set_this (set_mCommandRef (Some (length (pushed (mProject w)))) (this w1))
              (set_project
                 (mkProject
                    (pushed (mProject w)
                     ++ [mkCentroidMover (mTarget w) (mBaseCenter (this w))
                           (clampCenter (dragLocalCenter cur w))])
                    (macros (mProject w)
                     ++ [mkMacro "move centroid"
                           [TimeLineNotifier ev; AttributeNotifier (mTarget w)]])
                    (notified (mProject w)))
                 w1))).
  { unfold createCommand. subst w1. simpl.
    fold changeKeyValueEvent. by rewrite Hev. }
  assert (Hmv : moveCentroid host (dragLocalCenter cur w) w1
                = createCommand (clampCenter (dragLocalCenter cur w)) w1).
  { unfold moveCentroid, refModifiable in *. subst w1. simpl.
    unfold assertsHold, hasTimeLine in Hok.
    destruct (timeLine (mTarget w)); [|discriminate].
    destruct (mCommandRef (this w)); [by rewrite Hmod | done]. }
  rewrite Hmv, Hcr. eexists. split; [done|]. split; [reflexivity|]. by simpl.
Qed.

Lemma run_later_drags_notify tgt bv bc ev r ds w :
  assertsHold tgt = true ->
  pushEventTarget tgt changeKeyValueEvent = Some ev ->
  dragsOk false ds w = true ->
  gestureInv tgt bv bc w ->
  mCommandRef (this w) = Some r ->
  exists w',
    run ds w = Some w'
    /\ macros (mProject w') = macros (mProject w)
    /\ notified (mProject w')
       = notified (mProject w)
         ++ concat (replicate (length ds)
                      [onTimeLineModified ev false;
                       onNodeAttributeModified tgt false]).
Proof.
  intros Hok Hev. revert w.
  induction ds as [|d ds IH]; intros w Hds Hinv Hr.
  { exists w. simpl. by rewrite app_nil_r. }
  simpl in Hds.
  apply andb_prop in Hds as [Hds Hrest].
  apply andb_prop in Hds as [Hds Hmod]. simpl in Hmod.
  apply andb_prop in Hds as [Hd Hi].
  pose proof Hinv as (Ht & Hm & _).
  pose proof Hmod as Hmod'. unfold refModifiable in Hmod'. rewrite Hr in Hmod'.
  destruct (drag_modify_project (f_host d) (f_camera d) (f_cursor d) w r
              Hd Hm Hi) as (ev' & w1 & Hev' & Hs & Hmac & Hnot);
    [by rewrite Ht | done | done |].
  rewrite Ht, Hev in Hev'. injection Hev' as <-.
  destruct (step_drag tgt bv bc d w Hd Hok Hinv) as (w1' & Hs' & Hinv1).
  destruct (updateCursor_drag_moving (f_host d) (f_camera d) (f_cursor d) w
              Hd Hm Hi) as (w1'' & Hs'' & _ & _ & _ & _ & _ & _ & Hbr);
    [by rewrite Ht|].
  rewrite Hmod in Hbr. destruct Hbr as [Hr1 _].
  unfold step in Hs', Hrest. rewrite Hs in Hs', Hs'', Hrest.
  injection Hs' as <-. injection Hs'' as <-.
  destruct (IH w1 Hrest Hinv1) as (w' & Hrun & Hmac' & Hnot'); [congruence|].
  exists w'. simpl. unfold step. rewrite Hs.
  split; [done|]. split; [congruence|].
  rewrite Hnot', Hnot, Ht. by rewrite <- app_assoc.
Qed.

(** X14: over a gesture (a press that grabs, a first drag, the further
    drags [ds], each reading an invertible world matrix and each after
    the first finding the retained command reported modifiable, and a
    release) the manipulator opens exactly one macro, named "move
    centroid", with a timeline notifier and an attribute notifier as
    its listeners, and sends exactly one timeline notification and one
    node-attribute notification, both with the undo flag false, per
    drag after the first; every one of these events carries the targets
    of the same enumeration. *)
Theorem gesture_one_macro_two_notifications_per_merge
    (p d rel : Frame) (ds : list Frame) (w : World) :
  assertsHold (mTarget w) = true ->
  gestureOk p (d :: ds) w = true ->
  isRelease (f_cursor rel) = true ->
  exists ev w',
    pushEventTarget (mTarget w) changeKeyValueEvent = Some ev
    /\ run (p :: d :: ds ++ [rel]) w = Some w'
    /\ macros (mProject w')
       = macros (mProject w)
         ++ [mkMacro "move centroid"
               [TimeLineNotifier ev; AttributeNotifier (mTarget w)]]
    /\ notified (mProject w')
       = notified (mProject w)
         ++ concat (replicate (length ds)
                      [onTimeLineModified ev false;
                       onNodeAttributeModified (mTarget w) false]).
Proof.
  intros Hok Hg Hrel. unfold gestureOk in Hg.
  apply andb_prop in Hg as [Hg Hds].
  pose proof (step_grab p w Hg) as Hp.
  pose proof (grab_gestureInv p w) as Hinv0.
  set (bv := vec_sub (getWorldCentroidPos w) (worldPos (f_cursor p))) in *.
  set (wp := set_this _ w) in *.
  rewrite Hp in Hds. simpl in Hds.
  apply andb_prop in Hds as [Hds Hrest].
  apply andb_prop in Hds as [Hds _].
  apply andb_prop in Hds as [Hd Hi].
  destruct (drag_create_project (f_host d) (f_camera d) (f_cursor d) wp
              Hd eq_refl Hi Hok eq_refl) as (ev & w1 & Hev & Hs & Hmac & Hnot).
  destruct (step_drag _ _ _ d wp Hd Hok Hinv0) as (w1' & Hs' & Hinv1).
  destruct (updateCursor_drag_moving (f_host d) (f_camera d) (f_cursor d) wp
              Hd eq_refl Hi Hok) as (w1'' & Hs'' & _ & _ & _ & _ & _ & _ & Hbr).
  change (refModifiable (f_host d) wp) with false in Hbr.
  destruct Hbr as [Hr1 _].
  unfold step in Hs', Hrest. rewrite Hs in Hs', Hs'', Hrest.
  injection Hs' as <-. injection Hs'' as <-.
  destruct (run_later_drags_notify _ _ _ ev _ ds w1 Hok Hev Hrest Hinv1 Hr1)
    as (wn & Hrun & Hmacn & Hnotn).
  destruct (step_release rel wn Hrel) as (w' & Hsr & Hpr & _).
  exists ev, w'. split; [done|]. split.
  { change (p :: d :: ds ++ [rel]) with ([p; d] ++ ds ++ [rel]).
    rewrite run_app. simpl. rewrite Hp. unfold step at 1. rewrite Hs.
    rewrite run_app, Hrun. simpl. by rewrite Hsr. }
  rewrite Hpr, Hmacn, Hnotn, Hmac, Hnot. by split.
Qed.

End Notifications.

Section Rendering.
Context `{Painting}.

Lemma renderQt_handleCalls camera w :
  renderQt camera w
  = handleCalls
      (if mFocusing (this w) || mMoving (this w) then focusColor else idleColor)
      (toScreenPos camera (toPointF (getWorldCentroidPos w))).
Proof. reflexivity. Qed.

(** X15: what is drawn after a call.  The handle is drawn at the screen
    position of the world centroid, every pen and brush in the focus
    colour if the call found the cursor in focus, or left the
    manipulator moving (it was moving or the press grabbed, and the call
    carried no release), and in the idle colour otherwise; so the handle
    stays highlighted through a drag that leaves its radius, and loses
    the highlight on a release away from it. *)
Theorem handle_highlight_after_call
    (host : Host) (cam camera : CameraInfo) (cur : AbstractCursor) (w : World) :
  assertsHold (mTarget w) = true ->
  exists changed w',
    updateCursor host cam cur w = Some (changed, w')
    /\ renderQt camera w'
       = handleCalls
           (if focusTest cam cur w
               || negb (isRelease cur)
                  && (mMoving (this w)
                      || (isPress cur && focusTest cam cur w && hasWorldInv w))
            then focusColor else idleColor)
           (toScreenPos camera (toPointF (getWorldCentroidPos w')))
    /\ (mMoving (this w) = true -> isRelease cur = false ->
        renderQt camera w'
        = handleCalls focusColor
            (toScreenPos camera (toPointF (getWorldCentroidPos w'))))
    /\ (isRelease cur = true -> focusTest cam cur w = false ->
        renderQt camera w'
        = handleCalls idleColor
            (toScreenPos camera (toPointF (getWorldCentroidPos w')))).
Proof.
  intros Hok.
  destruct (call_summary host cam cur w Hok) as (changed & w' & Hu & _ & Hm & _).
  pose proof (updateCursor_focusing _ _ _ _ _ _ Hu) as Hf.
  exists changed, w'. split; [done|].
  rewrite renderQt_handleCalls, Hf, Hm.
  split; [done|]. split.
  - intros -> ->. simpl. by rewrite orb_true_r.
  - intros -> ->. done.
Qed.

End Rendering.

(** ** When a call aborts *)

Section Aborts.
Context `{Collaborators}.

Lemma pushEventTarget_None n e :
  assertsHold n = false -> pushEventTarget n e = None.
Proof.
  unfold assertsHold, pushEventTarget, hasTimeLine.
  destruct (timeLine n); [|done].
  destruct (canHoldChild n); simpl; [|discriminate].
  apply pushChildren_None.
Qed.

Lemma moveCentroid_None host v w :
  assertsHold (mTarget w) = false -> moveCentroid host v w = None.
Proof.
  intros Hbad. unfold moveCentroid, modifyCommand, createCommand.
  rewrite (pushEventTarget_None _ _ Hbad).
  destruct (timeLine (mTarget w)); [|done].
  destruct (mCommandRef (this w)) as [r|]; [by destruct (isModifiable host r)|done].
Qed.

(** X16: a call aborts on a pointer assertion exactly when it is a drag
    that finds the manipulator moving and the world matrix invertible
    while the target, or a direct child of a target that can hold
    children, has no timeline; every other call returns. *)
Theorem updateCursor_aborts_iff
    (host : Host) (cam : CameraInfo) (cur : AbstractCursor) (w : World) :
  updateCursor host cam cur w = None
  <-> isDrag cur = true /\ mMoving (this w) = true /\ hasWorldInv w = true
      /\ (timeLine (mTarget w) = None
          \/ (canHoldChild (mTarget w) = true
              /\ exists c, c ∈ children (mTarget w) /\ timeLine c = None)).
Proof.
  assert (Hbad : assertsHold (mTarget w) = false
                 <-> timeLine (mTarget w) = None
                     \/ (canHoldChild (mTarget w) = true
                         /\ exists c, c ∈ children (mTarget w) /\ timeLine c = None)).
  { rewrite <- forallb_hasTimeLine_false. unfold assertsHold, hasTimeLine.
    destruct (timeLine (mTarget w)), (canHoldChild (mTarget w)); simpl;
      split; try tauto; try discriminate; intros [?|[? ?]]; done. }
  rewrite <- Hbad. split.
  - intros Hu.
    destruct (cursor_cases cur) as [Hc|[Hc|[Hc|Hc]]].
    + by rewrite (updateCursor_press _ _ _ _ Hc) in Hu.
    + destruct (mMoving (this w) && hasWorldInv w) eqn:Hmi.
      * apply andb_prop in Hmi as [Hm Hi]. do 3 (split; [done|]).
        destruct (assertsHold (mTarget w)) eqn:Hok; [|done].
        destruct (updateCursor_drag_moving host cam cur w Hc Hm Hi Hok)
          as (w' & Hw' & _). congruence.
      * by rewrite (updateCursor_drag_skip _ _ _ _ Hc Hmi) in Hu.
    + by rewrite (updateCursor_release _ _ _ _ Hc) in Hu.
    + by rewrite (updateCursor_idle _ _ _ _ Hc) in Hu.
  - intros (Hd & Hm & Hi & Hno).
    rewrite (updateCursor_drag_move _ _ _ _ Hd Hm Hi).
    by rewrite moveCentroid_None.
Qed.

End Aborts.

(** ** The further theorems on the integer grid *)

Section MoreOnTheGrid.
Import Grid.

Lemma pushEventTarget_fails_iff_witness :
  pushEventTarget folderBad TimeLineEvent_new = None.
Proof.
  apply pushEventTarget_fails_iff. right. split; [reflexivity|].
  exists (mkObjectNode false None []). split; [|reflexivity].
  apply elem_of_cons. right. apply elem_of_cons. left. reflexivity.
Defined.

Lemma folder_targets_witness :
  exists e',
    pushEventTarget nested TimeLineEvent_new = Some e'
    /\ length (ev_targets e') = 7%nat
    /\ tgt_frame <$> ev_targets e' = [5; 0; 10; 20; 0; 10; 20].
Proof.
  destruct (folder_targets nested TimeLineEvent_new eq_refl eq_refl eq_refl)
    as (e' & He & _ & Ht & _ & Hlen).
  exists e'. split; [exact He|]. split; [exact Hlen|].
  rewrite Ht. vm_compute. reflexivity.
Defined.

Lemma targets_are_srt_of_node_or_child_witness :
  exists e',
    pushEventTarget layer31 TimeLineEvent_new = Some e'
    /\ Forall (fun t => tgt_type t = TimeKeyType_SRT) (ev_targets e').
Proof.
  eexists. split.
  { apply (pushEventTarget_leaf layer31 _ TimeLineEvent_new eq_refl eq_refl). }
  destruct (targets_are_srt_of_node_or_child layer31 TimeLineEvent_new _
              (pushEventTarget_leaf layer31 _ TimeLineEvent_new eq_refl eq_refl))
    as (_ & added & Hadd & Hsrt & _).
  rewrite Hadd. exact Hsrt.
Defined.

Lemma leaf_targets_duplicate_free_iff_witness :
  exists added,
    pushEventTarget layerBoth TimeLineEvent_new = Some (mkEvent None added)
    /\ ~ NoDup added.
Proof.
  destruct (leaf_targets_duplicate_free_iff layerBoth _ TimeLineEvent_new
              eq_refl eq_refl) as (added & He & _ & Hnd).
  exists added. split; [exact He|].
  intros Hn. apply (proj1 Hnd Hn 10).
  split; exists (); vm_compute; reflexivity.
Defined.

Lemma false_return_means_untouched_witness :
  updateCursor yes 1 (cursorAt 900 900 false false false) world0
  = Some (false, world0)
  /\ isIdle (cursorAt 900 900 false false false) = true
  /\ updateCursor yes 1 (cursorAt 103 54 false false false) world0
     = Some (true, set_this (set_mFocusing true idle0) world0).
Proof.
  assert (Hu : updateCursor yes 1 (cursorAt 900 900 false false false) world0
               = Some (false, world0)) by reflexivity.
  destruct (false_return_means_untouched yes 1
              (cursorAt 900 900 false false false) world0) as [Hfalse _].
  destruct (false_return_means_untouched yes 1
              (cursorAt 103 54 false false false) world0) as [_ Htrue].
  destruct (Hfalse world0 Hu) as (_ & Hidle & _).
  split; [exact Hu|]. split; [exact Hidle|].
  exact (Htrue eq_refl eq_refl).
Defined.

Lemma press_then_drag_then_release_precedence_witness :
  updateCursor yes 1 pressAndDrag world0
  = updateCursor yes 1 (cursorAt 103 54 true false false) world0.
Proof.
  exact (proj1 (press_then_drag_then_release_precedence yes 1 pressAndDrag world0)
           eq_refl).
Defined.

Lemma only_moving_drag_edits_witness :
  exists changed w',
    updateCursor no 1 (cursorAt 110 60 false true false) worldBare
    = Some (changed, w')
    /\ mProject w' = project0.
Proof.
  destruct (only_moving_drag_edits no 1 (cursorAt 110 60 false true false)
              worldBare eq_refl) as (changed & w' & Hu & Hp & _).
  exists changed, w'. split; [exact Hu | exact Hp].
Defined.

Lemma moving_starts_only_by_focused_press_witness :
  exists changed w',
    updateCursor yes 1 (cursorAt 103 54 true false false) world0
    = Some (changed, w')
    /\ mMoving (this w') = true.
Proof.
  destruct (moving_starts_only_by_focused_press yes 1
              (cursorAt 103 54 true false false) world0)
    as (changed & w' & Hu & Hm & _); [vm_compute; reflexivity|].
  exists changed, w'. split; [exact Hu | exact Hm].
Defined.

Lemma call_rewrites_only_retained_command_witness :
  exists changed w',
    updateCursor yes 1 (cursorAt 110 60 false true false) worldRetaining
    = Some (changed, w')
    /\ (1 <= length (pushed (mProject w')) <= 2)%nat.
Proof.
  destruct (call_rewrites_only_retained_command yes 1
              (cursorAt 110 60 false true false) worldRetaining)
    as (changed & w' & Hu & Hlen & _); [vm_compute; reflexivity|].
  exists changed, w'. split; [exact Hu | exact Hlen].
Defined.

Lemma run_keeps_undo_history_witness :
  exists w',
    run [press 103 54; drag no 110 60; drag no 5000 60; release 0 0] world0
    = Some w'
    /\ (length (pushed (mProject w')) <= 2)%nat.
Proof.
  destruct (run_keeps_undo_history
              [press 103 54; drag no 110 60; drag no 5000 60; release 0 0] world0)
    as (w' & Hrun & _ & [_ Hub] & _); [vm_compute; reflexivity|].
  exists w'. split; [exact Hrun | exact Hub].
Defined.


Lemma no_press_no_edit_witness :
  exists w',
    run [drag yes 110 60; release 0 0; hover 5 5] world0 = Some w'
    /\ mProject w' = project0.
Proof.
  destruct (no_press_no_edit [drag yes 110 60; release 0 0; hover 5 5] world0
              eq_refl eq_refl) as (w' & Hrun & Hp & _).
  exists w'. split; [exact Hrun | exact Hp].
Defined.

Lemma grab_starts_new_command_witness :
  exists w',
    run [press 103 54; drag yes 110 60] worldRetaining = Some w'
    /\ mCommandRef (this w') = Some 1%nat
    /\ length (pushed (mProject w')) = 2%nat.
Proof.
  destruct (grab_starts_new_command (press 103 54) (drag yes 110 60) worldRetaining)
    as (w' & Hrun & Hr & Hp);
    [vm_compute; reflexivity | vm_compute; reflexivity | reflexivity |].
  exists w'. split; [exact Hrun|]. split; [exact Hr|].
  rewrite Hp. reflexivity.
Defined.

Lemma gesture_one_macro_two_notifications_per_merge_witness :
  exists w',
    run [press 103 54; drag yes 110 60; drag yes 5000 60; drag yes 90 40;
         release 90 40] world0 = Some w'
    /\ length (macros (mProject w')) = 1%nat
    /\ length (notified (mProject w')) = 4%nat.
Proof.
  destruct (gesture_one_macro_two_notifications_per_merge
              (press 103 54) (drag yes 110 60) (release 90 40)
              [drag yes 5000 60; drag yes 90 40] world0)
    as (ev & w' & _ & Hrun & Hmac & Hnot);
    [vm_compute; reflexivity | vm_compute; reflexivity | reflexivity |].
  exists w'. split; [exact Hrun|].
  rewrite Hmac, Hnot. split; reflexivity.
Defined.

Lemma handle_highlight_after_call_witness :
  focusTest 1 (cursorAt 900 900 false true false) worldMoving = false
  /\ exists changed w',
      updateCursor yes 1 (cursorAt 900 900 false true false) worldMoving
      = Some (changed, w')
      /\ renderQt 1 w'
         = handleCalls focusColor (toScreenPos 1 (toPointF (getWorldCentroidPos w'))).
Proof.
  split; [vm_compute; reflexivity|].
  destruct (handle_highlight_after_call yes 1 1
              (cursorAt 900 900 false true false) worldMoving)
    as (changed & w' & Hu & _ & Hfocus & _); [vm_compute; reflexivity|].
  exists changed, w'. split; [exact Hu|].
  exact (Hfocus eq_refl eq_refl).
Defined.

Lemma updateCursor_aborts_iff_witness :
  updateCursor yes 1 (cursorAt 110 60 false true false) worldMovingBad = None.
Proof.
  apply updateCursor_aborts_iff.
  split; [reflexivity|]. split; [reflexivity|]. split; [reflexivity|].
  right. split; [reflexivity|].
  exists (mkObjectNode false None []). split; [|reflexivity].
  apply elem_of_cons. right. apply elem_of_cons. left. reflexivity.
Defined.

End MoreOnTheGrid.
